(** * covjsondask: tiled CoverageJSON ranges as lazy chunked arrays

    A shallow embedding of [src/covjsondask.py] (Python 2) and the
    properties of its three functions: [get_data] (byte fetcher),
    [get_tile] (tile loader) and [get_dask_arrays] (tiled-array builder).

    Python integers are unbounded, so they are [Z]; dictionaries are
    [gmap]s; exceptions are the [Err] branch of [result]. *)

From stdpp Require Import gmap strings list fin_maps pretty.
From Stdlib Require Import ZArith Lia.

Set Warnings "-register-all".

Local Open Scope Z_scope.

(** ** Exceptions *)

(** The exceptions the three functions can let escape. *)
Inductive exn : Type :=
  | KeyError (key : string)          (* d[k] on a dict without k *)
  | ZeroDivisionError                (* a / 0 and a % 0 on integers *)
  | ValueError                       (* numpy: bad reshape *)
  | RequestException (detail : string). (* raised by requests.get *)

Inductive result (A : Type) : Type :=
  | Ok (a : A)
  | Err (e : exn).
Arguments Ok {A} a.
Arguments Err {A} e.

#[global] Instance result_ret : MRet result := λ A a, Ok a.
#[global] Instance result_bind : MBind result := λ A B k r,
  match r with
  | Ok a => k a
  | Err e => Err e
  end.

Definition is_Ok {A} (r : result A) : Prop := ∃ a, r = Ok a.

(** ** Python integer arithmetic *)

(** [a / b] on Python 2 integers: floor division, which is [Z.div]. *)
Definition py_div (a b : Z) : result Z :=
  if decide (b = 0) then Err ZeroDivisionError else Ok (a `div` b).

(** [a % b]: the result has the sign of [b], which is [Z.modulo]. *)
Definition py_mod (a b : Z) : result Z :=
  if decide (b = 0) then Err ZeroDivisionError else Ok (a `mod` b).

(** [n * [x]]: a list of [n] copies, empty when [n] is not positive. *)
Definition py_list_repeat {A} (n : Z) (x : A) : list A :=
  replicate (Z.to_nat n) x.

Definition sum_list (l : list Z) : Z := foldr Z.add 0 l.

(** Ceiling of the quotient, as minus the floor of the negated quotient. *)
Definition ceil_div (a b : Z) : Z := - ((- a) `div` b).

(** ** Chunk sizes along one axis (get_dask_arrays, lines 98-111) *)

(** The body of the loop over [zip(p_shape, tile_shape)].  A tile size
    of [None] stands for the whole axis. *)
Definition axis_tiles (axis_size : Z) (axis_tile_size : option Z)
  : result (list Z) :=
  let axis_tile_size := default axis_size axis_tile_size in
  n_full_tiles ← py_div axis_size axis_tile_size;
  final_tile ← py_mod axis_size axis_tile_size;
  let axis_tiles := py_list_repeat n_full_tiles axis_tile_size in
  Ok (if decide (final_tile > 0) then axis_tiles ++ [final_tile]
      else axis_tiles).

(** The loop itself: one chunk-size sequence per pair, in order; the
    first failing axis aborts it. *)
Fixpoint axes_tile_sizes (pairs : list (Z * option Z))
  : result (list (list Z)) :=
  match pairs with
  | [] => Ok []
  | (axis_size, axis_tile_size) :: rest =>
      tiles ← axis_tiles axis_size axis_tile_size;
      more ← axes_tile_sizes rest;
      Ok (tiles :: more)
  end.


(** ** The input document *)

(** One entry of [tileSets].  A [tileShape] entry is an integer or
    [None] (JSON null). *)
Record tileset : Type := Tileset {
  tileShape : list (option Z);
  urlTemplate : string
}.

(** One entry of [ranges]. *)
Record range_descriptor : Type := RangeDescriptor {
  axisNames : list string;
  shape : list Z;
  tileSets : list tileset
}.

(** The decoded coverage.  Either top-level key may be missing.
    [parameters] holds the keys of that object in iteration order. *)
Record coverage : Type := Coverage {
  parameters : option (list string);
  ranges : option (gmap string range_descriptor)
}.

(** [d[k]] where the entry may be absent. *)
Definition getitem {A} (entry : option A) (key : string) : result A :=
  match entry with
  | Some a => Ok a
  | None => Err (KeyError key)
  end.

(** ** The result key (get_dask_arrays, lines 74-83) *)

(** The loop accumulating [axes_str] over [zip(tile_shape, p_axis_names)]. *)
Fixpoint axes_str_loop (pairs : list (option Z * string)) (axes_str : string)
  : string :=
  match pairs with
  | [] => axes_str
  | (axis_tile_size, axis_name) :: rest =>
      axes_str_loop rest
        (match axis_tile_size with
         | Some _ => axes_str +:+ axis_name
         | None => axes_str
         end)
  end.

Definition da_key (param : string) (tile_shape : list (option Z))
    (p_axis_names : list string) : string :=
  let axes_str := axes_str_loop (zip tile_shape p_axis_names) "" in
  if decide (String.length axes_str = 0%nat) then param +:+ "-untiled"
  else param +:+ "-" +:+ axes_str +:+ "_tiling".

(** ** Chunk coordinates (get_dask_arrays, lines 112-117) *)

(** [range(len(axis_tiles))]. *)
Definition axis_coords (axis_tiles : list Z) : list Z :=
  seqZ 0 (Z.of_nat (length axis_tiles)).

(** [itertools.product] over the per-axis ranges: the rightmost position varies
    fastest; no iterable at all gives the single empty tuple. *)
Fixpoint product {A} (iterables : list (list A)) : list (list A) :=
  match iterables with
  | [] => [[]]
  | pool :: rest => x ← pool; (cons x) <$> product rest
  end.

(** ** str.replace and str *)

(** [str(n)] for an integer: decimal digits, with a leading minus sign
    for negatives. *)
Definition str (n : Z) : string := pretty n.

(** Scan for [old] from left to right; [skip] counts the characters of
    the occurrence just matched that are still to be dropped. *)
Fixpoint replace_from (old new : string) (skip : nat) (s : string) : string :=
  match s with
  | EmptyString => EmptyString
  | String c s' =>
      match skip with
      | S skip' => replace_from old new skip' s'
      | O =>
          if String.prefix old s
          then new +:+ replace_from old new (String.length old - 1) s'
          else String c (replace_from old new 0 s')
      end
  end.

Fixpoint insert_after_each (new s : string) : string :=
  match s with
  | EmptyString => EmptyString
  | String c s' => String c (new +:+ insert_after_each new s')
  end.

(** [s.replace(old, new)]: every non-overlapping occurrence of [old],
    found from the left, becomes [new].  An empty [old] matches before
    every character and at the end. *)
Definition str_replace (s old new : string) : string :=
  if decide (old = EmptyString) then new +:+ insert_after_each new s
  else replace_from old new 0 s.

(** The loop of get_tile (lines 150-151) over
    [zip(axis_names, tile_indices)]. *)
Fixpoint substitute (url_template : string) (pairs : list (string * Z))
  : string :=
  match pairs with
  | [] => url_template
  | (axis, tile_index) :: rest =>
      substitute (str_replace url_template ("{" +:+ axis +:+ "}")
                    (str tile_index)) rest
  end.

(** ** numpy arrays *)

(** A C-contiguous array: its dimensions and its elements in row-major
    order. *)
Record ndarray (A : Type) : Type := NdArray {
  nd_shape : list nat;
  nd_data : list A
}.
Arguments NdArray {A} nd_shape nd_data.
Arguments nd_shape {A} _.
Arguments nd_data {A} _.

Definition prod_list (l : list Z) : Z := foldr Z.mul 1 l.
Definition prod_nat (l : list nat) : nat := foldr Nat.mul 1%nat l.

(** The numpy build in use, as far as get_tile meets it:
    [np_cast values v] is the value [v] of the list [values] as
    [np.array(values)] stores it, converted to the common dtype numpy
    finds for the list; [np_itemsize data] is the number of bytes one
    element of an array holding [data] takes; [npy_max_intp] is the
    largest [intp] and [npy_maxdims] the largest number of dimensions. *)
Record numpy (number : Type) : Type := Numpy {
  np_cast : list number → number → number;
  np_itemsize : list number → Z;
  npy_max_intp : Z;
  npy_maxdims : nat
}.
Arguments Numpy {number} np_cast np_itemsize npy_max_intp npy_maxdims.
Arguments np_cast {number} _ _ _.
Arguments np_itemsize {number} _ _.
Arguments npy_max_intp {number} _.
Arguments npy_maxdims {number} _.

(** [np.array(values)] on a flat list of numbers: one dimension, every
    value converted to the common dtype. *)
Definition np_array {number} (np : numpy number) (values : list number)
  : ndarray number :=
  NdArray [length values] (np_cast np values <$> values).

(** The loop of numpy's shape check, from the left: the product, in
    [intp], of the entries that are not negative, and whether a negative
    entry (the dimension to infer; numpy documents -1) was met.  A
    product beyond the largest [intp] and a second negative entry are
    errors. *)
Fixpoint known_size (max_intp : Z) (newshape : list Z) (s_known : Z)
    (unknown : bool) : result (Z * bool) :=
  match newshape with
  | [] => Ok (s_known, unknown)
  | d :: rest =>
      if decide (d < 0)
      then (if unknown then Err ValueError
            else known_size max_intp rest s_known true)
      else if decide (s_known * d > max_intp) then Err ValueError
      else known_size max_intp rest (s_known * d) unknown
  end.

(** numpy's check of a requested shape against the number of elements. *)
Definition fix_unknown_dimension (max_intp : Z) (newshape : list Z)
    (s_original : Z) : result (list Z) :=
  known ← known_size max_intp newshape 1 false;
  let s_known := known.1 in
  if known.2 : bool
  then
    if decide (s_known = 0 ∨ s_original `mod` s_known ≠ 0)
    then Err ValueError
    else Ok ((λ d, if decide (d < 0) then s_original `div` s_known else d)
               <$> newshape)
  else
    if decide (s_original = s_known) then Ok newshape else Err ValueError.

(** The size check made when the array over the new dimensions is
    created: the bytes of one element times the dimensions that are not
    zero, from the left, must stay within [intp]. *)
Fixpoint array_too_big (max_intp : Z) (dims : list Z) (nbytes : Z) : bool :=
  match dims with
  | [] => false
  | d :: rest =>
      if decide (d = 0) then array_too_big max_intp rest nbytes
      else if decide (nbytes * d > max_intp) then true
      else array_too_big max_intp rest (nbytes * d)
  end.

(** [arr.reshape(newshape)] for a list of integers: same elements, new
    dimensions.  The list is first converted to at most [npy_maxdims]
    [intp] values; an unchanged shape gives the array back at once. *)
Definition reshape {number} (np : numpy number) (arr : ndarray number)
    (newshape : list Z) : result (ndarray number) :=
  if decide (npy_maxdims np < length newshape)%nat then Err ValueError
  else if decide (Forall (λ d, - npy_max_intp np - 1 ≤ d ≤ npy_max_intp np)
                         newshape)
  then
    if decide (newshape = Z.of_nat <$> nd_shape arr) then Ok arr
    else
      dims ← fix_unknown_dimension (npy_max_intp np) newshape
                (Z.of_nat (length (nd_data arr)));
      if array_too_big (npy_max_intp np) dims (np_itemsize np (nd_data arr))
      then Err ValueError
      else Ok (NdArray (Z.to_nat <$> dims) (nd_data arr))
  else Err ValueError.

(** The nested-list view of an array ([arr.tolist()]). *)
Inductive nested (A : Type) : Type :=
  | Item (a : A)
  | Rows (rows : list (nested A)).
Arguments Item {A} a.
Arguments Rows {A} rows.

(** [n] consecutive runs of [k] elements. *)
Fixpoint runs {A} (k n : nat) (data : list A) : list (list A) :=
  match n with
  | O => []
  | S n' => take k data :: runs k n' (drop k data)
  end.

Fixpoint nest {A} (dims : list nat) (data : list A) : option (nested A) :=
  match dims with
  | [] => match data with
          | [a] => Some (Item a)
          | _ => None
          end
  | d :: dims' => Rows <$> mapM (nest dims') (runs (prod_nat dims') d data)
  end.

Definition tolist {A} (arr : ndarray A) : option (nested A) :=
  nest (nd_shape arr) (nd_data arr).

(** [t[i0][i1]...]. *)
Fixpoint nested_get {A} (t : nested A) (idx : list nat) : option (nested A) :=
  match idx with
  | [] => Some t
  | i :: idx' =>
      match t with
      | Rows rows => row ← rows !! i; nested_get row idx'
      | Item _ => None
      end
  end.

(** Row-major offset of a multi-index: the first axis varies slowest. *)
Fixpoint ravel (dims idx : list nat) : nat :=
  match dims, idx with
  | _ :: dims', i :: idx' => (i * prod_nat dims' + ravel dims' idx')%nat
  | _, _ => O
  end.

(** ** The three functions *)

(** What [requests.get] hands back when it does not raise: any status
    code, with the body. *)
Record response : Type := Response {
  status_code : Z;
  content : list Byte.byte
}.

(** A decoded tile document: its "values" and its "shape"
    ([tile_shape_of], as [shape] is the field of a range). *)
Record tile_document (number : Type) : Type := TileDocument {
  values : list number;
  tile_shape_of : list Z
}.
Arguments TileDocument {number} values tile_shape_of.
Arguments values {number} _.
Arguments tile_shape_of {number} _.

Section Program.
Context {number : Type}.
(** The collaborators: the HTTP client, [json.loads] at the two
    document types, and numpy. *)
Variable requests_get : string → result response.
Variable json_loads_coverage : list Byte.byte → result coverage.
Variable json_loads_tile : list Byte.byte → result (tile_document number).
Variable np : numpy number.

Definition get_data (location : string) : result (list Byte.byte) :=
  response ← requests_get location;
  Ok (content response).

Definition get_tile (url_template : string) (axis_names : list string)
    (tile_indices : list Z) : result (ndarray number) :=
  let url_template := substitute url_template (zip axis_names tile_indices) in
  bytes ← get_data url_template;
  tile_data ← json_loads_tile bytes;
  reshape np (np_array np (values tile_data)) (tile_shape_of tile_data).

(** A task-graph value: the function and its three arguments. *)
Definition task : Type :=
  (string → list string → list Z → result (ndarray number))
  * string * list string * list Z.

(** [da.Array(dask, name, chunks)]. *)
Record dask_array : Type := Array {
  dask : gmap (string * list Z) task;
  name : string;
  chunks : list (list Z)
}.

(** The loop over [tile_coords] (lines 115-124). *)
Definition dask_graph_of (param url_template : string)
    (p_axis_names : list string) (tile_coords : list (list Z))
  : gmap (string * list Z) task :=
  foldl (λ dask_graph coord,
           <[(param, coord) := (get_tile, url_template, p_axis_names, coord)]>
             dask_graph)
        ∅ tile_coords.

(** The body of the loop over the tilesets of one parameter
    (lines 69-127): the key and the array stored under it. *)
Definition build_tileset (param : string) (p_axis_names : list string)
    (p_shape : list Z) (p_tileset : tileset) : result (string * dask_array) :=
  let tile_shape := tileShape p_tileset in
  let da_key := da_key param tile_shape p_axis_names in
  axes_tile_sizes ← axes_tile_sizes (zip p_shape tile_shape);
  let axes_coords := axis_coords <$> axes_tile_sizes in
  let tile_coords := product axes_coords in
  let dask_graph :=
    dask_graph_of param (urlTemplate p_tileset) p_axis_names tile_coords in
  Ok (da_key, Array dask_graph param axes_tile_sizes).

(** The same body, on a (parameter, range, tileset) triple. *)
Definition build_job (job : string * range_descriptor * tileset)
  : result (string * dask_array) :=
  build_tileset job.1.1 (axisNames job.1.2) (shape job.1.2) job.2.

Fixpoint tilesets_loop (param : string) (p_axis_names : list string)
    (p_shape : list Z) (p_tilesets : list tileset)
    (dask_arrays : gmap string dask_array)
  : result (gmap string dask_array) :=
  match p_tilesets with
  | [] => Ok dask_arrays
  | p_tileset :: rest =>
      entry ← build_tileset param p_axis_names p_shape p_tileset;
      tilesets_loop param p_axis_names p_shape rest
        (<[entry.1 := entry.2]> dask_arrays)
  end.

(** The loop over the parameters (lines 58-127). *)
Fixpoint params_loop (cov : coverage) (params : list string)
    (dask_arrays : gmap string dask_array)
  : result (gmap string dask_array) :=
  match params with
  | [] => Ok dask_arrays
  | param :: rest =>
      all_ranges ← getitem (ranges cov) "ranges";
      p_range ← getitem (all_ranges !! param) param;
      dask_arrays ←
        tilesets_loop param (axisNames p_range) (shape p_range)
          (tileSets p_range) dask_arrays;
      params_loop cov rest dask_arrays
  end.

(** get_dask_arrays after the document is decoded (lines 47, 56-128). *)
Definition build_dask_arrays (cov : coverage)
  : result (gmap string dask_array) :=
  params ← getitem (parameters cov) "parameters";
  params_loop cov params ∅.

Definition get_dask_arrays (location : string)
  : result (gmap string dask_array) :=
  bytes ← get_data location;
  cov ← json_loads_coverage bytes;
  build_dask_arrays cov.
End Program.

Arguments dask_array : clear implicits.
Arguments task : clear implicits.

(** ** Sample collaborators and documents *)

(** An HTTP client whose every request fails to connect. *)
Definition connection_refused (location : string) : result response :=
  Err (RequestException "connection refused").

(** A server answering every request with status 404 and a short body. *)
Definition not_found_body : list Byte.byte := [Byte.x34; Byte.x30; Byte.x34].
Definition always_404 (location : string) : result response :=
  Ok (Response 404 not_found_body).

(** A server answering 200 with an empty body, and decoders that do not
    look at the bytes. *)
Definition always_200 (location : string) : result response :=
  Ok (Response 200 []).
Definition undecodable_coverage (bytes : list Byte.byte) : result coverage :=
  Err ValueError.
Definition tile_2x2 (bytes : list Byte.byte) : result (tile_document Z) :=
  Ok (TileDocument [1; 2; 3; 4] [2; 2]).
Definition tile_3x2 (bytes : list Byte.byte) : result (tile_document Z) :=
  Ok (TileDocument [1; 2; 3; 4] [3; 2]).
(** A tile whose first dimension is left to numpy. *)
Definition tile_inferred_rows (bytes : list Byte.byte)
  : result (tile_document Z) :=
  Ok (TileDocument [1; 2; 3; 4] [-1; 2]).

(** A 64-bit numpy on integer lists whose values all fit int64: they
    are stored as they are, 8 bytes each. *)
Definition numpy64 : numpy Z := Numpy (λ _ v, v) (λ _, 8) (2 ^ 63 - 1) 32.

(** One parameter FOO over (y, x) of shape 10 x 11 in tiles of 3 x 3. *)
Definition foo_range : range_descriptor :=
  RangeDescriptor ["y"; "x"] [10; 11]
    [Tileset [Some 3; Some 3] "http://h/{y}/{x}"].
Definition foo_coverage : coverage :=
  Coverage (Some ["FOO"]) (Some {[ "FOO" := foo_range ]}).

(** Two axis names, but a shape of length one. *)
Definition short_shape_range : range_descriptor :=
  RangeDescriptor ["y"; "x"] [10]
    [Tileset [Some 3; Some 3] "http://h/{y}/{x}"].
Definition short_shape_coverage : coverage :=
  Coverage (Some ["FOO"]) (Some {[ "FOO" := short_shape_range ]}).

(** No parameter at all, and no [ranges] key. *)
Definition no_parameter_coverage : coverage := Coverage (Some []) None.

(** Two unsplit tilesets with different URLs. *)
Definition twice_untiled_range : range_descriptor :=
  RangeDescriptor ["y"; "x"] [10; 11]
    [Tileset [None; None] "http://h/first";
     Tileset [None; None] "http://h/second"].
Definition twice_untiled_coverage : coverage :=
  Coverage (Some ["FOO"]) (Some {[ "FOO" := twice_untiled_range ]}).

(** A tile size of zero that no shape entry is paired with. *)
Definition unpaired_zero_range : range_descriptor :=
  RangeDescriptor ["y"; "x"] [10]
    [Tileset [Some 3; Some 0] "http://h/{y}/{x}"].
Definition unpaired_zero_coverage : coverage :=
  Coverage (Some ["FOO"]) (Some {[ "FOO" := unpaired_zero_range ]}).

(** A tile size of zero. *)
Definition zero_tile_range : range_descriptor :=
  RangeDescriptor ["y"; "x"] [10; 11]
    [Tileset [Some 3; Some 0] "http://h/{y}/{x}"].
Definition zero_tile_coverage : coverage :=
  Coverage (Some ["FOO"]) (Some {[ "FOO" := zero_tile_range ]}).

(** ** Predicates on documents used in the statements *)

(** A [tileShape] entry that is an integer is positive. *)
Definition positive_tile_size (t : option Z) : Prop :=
  match t with
  | Some T => 0 < T
  | None => True
  end.

Definition positive_range (r : range_descriptor) : Prop :=
  Forall (λ E, 0 < E) (shape r) ∧
  Forall (λ ts, Forall positive_tile_size (tileShape ts)) (tileSets r).

(** Every shape entry and every integer [tileShape] entry is positive. *)
Definition positive_sizes (cov : coverage) : Prop :=
  match ranges cov with
  | Some rs => map_Forall (λ _ r, positive_range r) rs
  | None => True
  end.

(** The divisor used for a paired (extent, tile size) is zero: the tile
    size is 0, or the axis is unsplit and its extent is 0. *)
Definition zero_divisor (pair : Z * option Z) : Prop :=
  default pair.1 pair.2 = 0.

Definition has_zero_divisor (r : range_descriptor) : Prop :=
  Exists (λ ts, Exists zero_divisor (zip (shape r) (tileShape ts)))
         (tileSets r).

(** Both top-level keys are there and every listed parameter has a
    range. *)
Definition keys_present (cov : coverage) (ps : list string)
    (rs : gmap string range_descriptor) : Prop :=
  parameters cov = Some ps ∧ ranges cov = Some rs ∧
  Forall (λ p, is_Some (rs !! p)) ps.

(** The names of the axes that are paired with an integer tile size, in
    axis order. *)
Definition split_axis_names (tile_shape : list (option Z))
    (p_axis_names : list string) : list string :=
  (filter (λ pair, is_Some pair.1) (zip tile_shape p_axis_names)).*2.

Definition concat_names (names : list string) : string :=
  foldr String.append EmptyString names.

(** The (parameter, range, tileset) triples in the order the two loops
    visit them. *)
Definition jobs_of (rs : gmap string range_descriptor) (ps : list string)
  : list (string * range_descriptor * tileset) :=
  p ← ps;
  match rs !! p with
  | Some r => (λ ts, (p, r, ts)) <$> tileSets r
  | None => []
  end.

Definition jobs (cov : coverage) : list (string * range_descriptor * tileset) :=
  match parameters cov, ranges cov with
  | Some ps, Some rs => jobs_of rs ps
  | _, _ => []
  end.

Definition job_key (job : string * range_descriptor * tileset) : string :=
  da_key job.1.1 (tileShape job.2) (axisNames job.1.2).


(** Storing (key, value) pairs into a dictionary one after the other. *)
Definition store_all {V} (acc : gmap string V) (entries : list (string * V))
  : gmap string V :=
  foldl (λ acc entry, <[entry.1 := entry.2]> acc) acc entries.

(** [old in s]: [old] starts at some position of [s]. *)
Fixpoint contains (old s : string) : bool :=
  String.prefix old s ||
  match s with
  | EmptyString => false
  | String _ s' => contains old s'
  end.

(** Replacing every occurrence, in the words of the specification:
    a string without occurrence is left as it is; otherwise the text
    before the leftmost occurrence is kept, the occurrence becomes
    [new], and the rest is treated the same way. *)
Inductive replaced_all (old new : string) : string → string → Prop :=
  | replaced_none s :
      contains old s = false → replaced_all old new s s
  | replaced_first a b b' :
      (∀ a1 a2, a = a1 +:+ a2 → a2 ≠ EmptyString →
                String.prefix old (a2 +:+ old +:+ b) = false) →
      replaced_all old new b b' →
      replaced_all old new (a +:+ old +:+ b) (a +:+ new +:+ b').

(** The result key in the words of the specification: untiled when no
    tileShape entry is an integer, otherwise the split axes' names. *)
Definition spec_result_key (param : string) (tile_shape : list (option Z))
    (p_axis_names : list string) : string :=
  if decide (Forall (λ t, t = None) tile_shape) then param +:+ "-untiled"
  else param +:+ "-" +:+ concat_names (split_axis_names tile_shape p_axis_names)
         +:+ "_tiling".

(** The number of positions of [s] at which [old] starts. *)
Fixpoint occurrences (old s : string) : nat :=
  ((if String.prefix old s then 1 else 0) +
   match s with
   | EmptyString => 0
   | String _ s' => occurrences old s'
   end)%nat.

#[global] Instance result_fmap : FMap result := λ A B f r,
  match r with
  | Ok a => Ok (f a)
  | Err e => Err e
  end.

(** What a task-graph value holds besides the function, and what an
    array holds besides the functions of its tasks. *)
Definition task_args {number} (t : task number)
  : string * list string * list Z :=
  (t.1.1.2, t.1.2, t.2).

Definition array_metadata {number} (arr : dask_array number)
  : string * list (list Z) * gmap (string * list Z) (string * list string * list Z) :=
  (name arr, chunks arr, task_args <$> dask arr).

Definition mapping_metadata {number} (m : gmap string (dask_array number))
  : gmap string (string * list (list Z) *
                 gmap (string * list Z) (string * list string * list Z)) :=
  array_metadata <$> m.

(** The grid of the docstring: FOO over (t, y, x), tiled by (y, x), by
    t, and not at all. *)
Definition grid_range : range_descriptor :=
  RangeDescriptor ["t"; "y"; "x"] [4; 10; 11]
    [Tileset [None; Some 3; Some 3] "http://h/a/{y}/{x}";
     Tileset [Some 1; None; None] "http://h/b/{t}";
     Tileset [None; None; None] "http://h/c"].
Definition grid_coverage : coverage :=
  Coverage (Some ["FOO"]) (Some {[ "FOO" := grid_range ]}).

(** A server that knows one document only, and a decoder for it. *)
Definition serve_only_coverage (location : string) : result response :=
  if decide (location = "http://h/coverage") then Ok (Response 200 [])
  else Err (RequestException "connection refused").
Definition decode_foo_coverage (bytes : list Byte.byte) : result coverage :=
  Ok foo_coverage.

(** An (extent, tile size) pair the chunking covers exactly: the extent
    is not negative and the divisor is positive. *)
Definition covered_pair (pair : Z * option Z) : Prop :=
  0 ≤ pair.1 ∧ 0 < default pair.1 pair.2.

(** The number of tiles along such an axis. *)
Definition tiles_along (pair : Z * option Z) : nat :=
  Z.to_nat (ceil_div pair.1 (default pair.1 pair.2)).

(** A split axis that gets no chunk at all: a positive extent with a
    negative tile size, or an extent of zero. *)
Definition chunkless_pair (pair : Z * option Z) : Prop :=
  ∃ T, pair.2 = Some T ∧ ((0 < pair.1 ∧ T < 0) ∨ (pair.1 = 0 ∧ T ≠ 0)).

(** ** Theorems *)

Lemma sum_list_app l1 l2 : sum_list (l1 ++ l2) = sum_list l1 + sum_list l2.
Proof. induction l1 as [|x l1 IH]; simpl; lia. Qed.

Lemma sum_list_replicate n x : sum_list (replicate n x) = Z.of_nat n * x.
Proof. induction n as [|n IH]; simpl replicate; simpl sum_list; lia. Qed.

Lemma axis_tiles_split E T :
  T ≠ 0 →
  axis_tiles E (Some T) =
    Ok (replicate (Z.to_nat (E `div` T)) T ++
        (if decide (E `mod` T > 0) then [E `mod` T] else [])).
Proof.
  intros HT. unfold axis_tiles, py_div, py_mod, py_list_repeat. simpl.
  rewrite !decide_False by done. simpl.
  destruct (decide (E `mod` T > 0)); by rewrite ?app_nil_r.
Qed.

Lemma ceil_div_spec a b n :
  0 < b → (ceil_div a b = n ↔ (n - 1) * b < a ≤ n * b).
Proof.
  intros Hb. unfold ceil_div. split.
  - intros <-. pose proof (Z.mod_pos_bound (- a) b Hb).
    pose proof (Z.div_mod (- a) b). nia.
  - intros [H1 H2]. cut ((- a) `div` b = - n); [lia|].
    symmetry. apply (Z.div_unique_pos (- a) b (- n) (n * b - a)); lia.
Qed.

(** C1: for a positive extent [E] and a positive tile size [T] the
    chunk-size sequence is [floor(E/T)] copies of [T] followed by
    [E mod T] when that is positive; it sums to [E], every element is at
    most [T], every element before the last equals [T], and its length is
    [ceil(E/T)]. *)
Theorem chunk_sizes_of_split_axis (E T : Z) :
  0 < E → 0 < T →
  ∃ chunks : list Z,
    axis_tiles E (Some T) = Ok chunks ∧
    chunks = replicate (Z.to_nat (E `div` T)) T ++
               (if decide (E `mod` T > 0) then [E `mod` T] else []) ∧
    sum_list chunks = E ∧
    Forall (λ c, 0 < c ≤ T) chunks ∧
    (∀ (i : nat) c, chunks !! i = Some c → (S i < length chunks)%nat → c = T) ∧
    Z.of_nat (length chunks) = ceil_div E T.
Proof.
  intros HE HT. eexists. split; [apply axis_tiles_split; lia|].
  split; [done|].
  pose proof (Z.mod_pos_bound E T HT) as Hm.
  pose proof (Z.div_mod E T ltac:(lia)) as Hdm.
  assert (0 ≤ E `div` T) as Hq by (apply Z.div_pos; lia).
  repeat split.
  - rewrite sum_list_app, sum_list_replicate, Z2Nat.id by done.
    destruct (decide (E `mod` T > 0)); simpl; lia.
  - apply Forall_app. split.
    + apply Forall_replicate. lia.
    + destruct (decide (E `mod` T > 0)); repeat constructor; lia.
  - intros i c Hi Hlen.
    rewrite length_app, length_replicate in Hlen.
    assert (i < Z.to_nat (E `div` T))%nat as Hlt.
    { destruct (decide (E `mod` T > 0)); simpl in Hlen; lia. }
    rewrite lookup_app_l in Hi by (by rewrite length_replicate).
    by apply lookup_replicate in Hi as [-> _].
  - apply eq_sym, ceil_div_spec; [done|].
    rewrite length_app, length_replicate.
    destruct (decide (E `mod` T > 0)); simpl length; nia.
Qed.


(** *** One chunk for an unsplit or oversized tile *)

(** C6 (as amended): for an axis of positive extent [E] that is unsplit,
    or whose tile size is at least [E], the chunk-size sequence is [[E]]:
    one tile spanning the whole extent, at chunk index 0. *)
Theorem single_chunk_axis (E : Z) (t : option Z) :
  0 < E →
  (t = None ∨ ∃ T, t = Some T ∧ E ≤ T) →
  axis_tiles E t = Ok [E] ∧ axis_coords [E] = [0].
Proof.
  intros HE Ht. split; [|done].
  assert (∀ T, E ≤ T → axis_tiles E (Some T) = Ok [E]) as Hsplit.
  { intros T HT. rewrite axis_tiles_split by lia.
    destruct (decide (T = E)) as [->|Hne].
    - rewrite Z.div_same, Z.mod_same by lia. by rewrite decide_False by lia.
    - rewrite Z.div_small, Z.mod_small by lia. by rewrite decide_True by lia. }
  destruct Ht as [->|(T & -> & HT)]; [|by apply Hsplit].
  apply (Hsplit E). lia.
Qed.

(** *** Division by zero *)

Lemma axis_tiles_zero_divisor E t :
  default E t = 0 → axis_tiles E t = Err ZeroDivisionError.
Proof. intros H. unfold axis_tiles, py_div. rewrite H. done. Qed.

Lemma axis_tiles_nonzero_divisor E t :
  default E t ≠ 0 → is_Ok (axis_tiles E t).
Proof.
  intros H. unfold axis_tiles, py_div, py_mod.
  rewrite !decide_False by done. simpl. by eexists.
Qed.

Lemma axis_tiles_Err E t e :
  axis_tiles E t = Err e → e = ZeroDivisionError ∧ zero_divisor (E, t).
Proof.
  intros He. destruct (decide (default E t = 0)) as [H0|Hn].
  - rewrite axis_tiles_zero_divisor in He by done. by inversion He.
  - destruct (axis_tiles_nonzero_divisor E t Hn) as [l Hl]. congruence.
Qed.

Lemma axes_tile_sizes_Err pairs e :
  axes_tile_sizes pairs = Err e →
  e = ZeroDivisionError ∧ Exists zero_divisor pairs.
Proof.
  induction pairs as [|[E t] pairs IH]; simpl; [done|].
  destruct (axis_tiles E t) as [tiles|e'] eqn:Ht; simpl.
  - destruct (axes_tile_sizes pairs) as [more|e'']; simpl; [done|].
    intros [= ->]. destruct IH as [-> ?]; [done|]. split; [done|].
    by apply Exists_cons_tl.
  - intros [= ->]. apply axis_tiles_Err in Ht as [-> ?]. split; [done|].
    by apply Exists_cons_hd.
Qed.

Lemma axes_tile_sizes_zero_divisor pairs :
  Exists zero_divisor pairs → axes_tile_sizes pairs = Err ZeroDivisionError.
Proof.
  induction 1 as [[E t] pairs Hz|[E t] pairs Hz IH]; simpl.
  - by rewrite axis_tiles_zero_divisor.
  - destruct (axis_tiles E t) as [tiles|e] eqn:Ht; simpl.
    + by rewrite IH.
    + by apply axis_tiles_Err in Ht as [-> _].
Qed.

Lemma positive_pairs_no_zero_divisor (p_shape : list Z) tile_shape :
  Forall (λ E, 0 < E) p_shape → Forall positive_tile_size tile_shape →
  ¬ Exists zero_divisor (zip p_shape tile_shape).
Proof.
  intros Hs. revert tile_shape.
  induction Hs as [|E p_shape HE Hs IH]; intros [|t tile_shape] Ht; simpl;
    try by inversion 1.
  inversion Ht as [|? ? Hpos Ht']; subst.
  intros [Hz|Hz]%Exists_cons; [|by eapply IH].
  unfold zero_divisor in Hz. destruct t; simpl in *; lia.
Qed.

(** *** Strings *)

Lemma string_app_cons c (s1 s2 : string) :
  String c s1 +:+ s2 = String c (s1 +:+ s2).
Proof. reflexivity. Qed.

Lemma string_app_empty_l (s : string) : "" +:+ s = s.
Proof. reflexivity. Qed.

Lemma string_app_assoc (s1 s2 s3 : string) :
  (s1 +:+ s2) +:+ s3 = s1 +:+ (s2 +:+ s3).
Proof.
  induction s1 as [|c s1 IH]; [done|].
  by rewrite !string_app_cons, IH.
Qed.

Lemma string_app_empty_r (s : string) : s +:+ "" = s.
Proof.
  induction s as [|c s IH]; [done|]. by rewrite string_app_cons, IH.
Qed.

Lemma string_length_app (s1 s2 : string) :
  String.length (s1 +:+ s2) = (String.length s1 + String.length s2)%nat.
Proof.
  induction s1 as [|c s1 IH]; [done|].
  rewrite string_app_cons. simpl. by rewrite IH.
Qed.

Lemma string_length_0 (s : string) : String.length s = 0%nat ↔ s = "".
Proof. by destruct s. Qed.

Lemma prefix_app (old b : string) : String.prefix old (old +:+ b) = true.
Proof.
  induction old as [|c old IH]; [by destruct b|].
  rewrite string_app_cons. simpl. by destruct (Ascii.ascii_dec c c).
Qed.

Lemma prefix_inv (old s : string) :
  String.prefix old s = true → ∃ b, s = old +:+ b.
Proof.
  revert s. induction old as [|c old IH]; intros s; [by exists s|].
  destruct s as [|c' s]; simpl; [done|].
  destruct (Ascii.ascii_dec c c') as [<-|]; [|done].
  intros [b ->]%IH. by exists b.
Qed.

Lemma contains_true_iff (old s : string) :
  contains old s = true ↔ ∃ a b, s = a +:+ old +:+ b.
Proof.
  split.
  - induction s as [|c s IH]; cbn [contains]; rewrite orb_true_iff.
    + intros [[b Hb]%prefix_inv|?]; [|done]. by exists "", b.
    + intros [[b Hb]%prefix_inv|(a & b & ->)%IH]; [by exists "", b|].
      by exists (String c a), b.
  - intros (a & b & ->). induction a as [|c a IH].
    + rewrite string_app_empty_l.
      destruct (old +:+ b) eqn:Heq; cbn [contains];
        rewrite <- Heq, prefix_app; done.
    + rewrite string_app_cons. cbn [contains]. rewrite IH. apply orb_true_r.
Qed.

(** *** str.replace *)

Lemma replace_from_skip old new (a b : string) :
  replace_from old new (String.length a) (a +:+ b) = replace_from old new 0 b.
Proof.
  induction a as [|c a IH]; [done|]. by rewrite string_app_cons.
Qed.

Lemma replace_from_match old new (b : string) :
  old ≠ "" →
  replace_from old new 0 (old +:+ b) = new +:+ replace_from old new 0 b.
Proof.
  intros Hold. destruct old as [|c old]; [done|].
  pose proof (prefix_app (String c old) b) as Hp.
  rewrite string_app_cons in *. cbn [replace_from]. rewrite Hp.
  replace (String.length (String c old) - 1)%nat with (String.length old)
    by (simpl; lia).
  by rewrite replace_from_skip.
Qed.

Lemma replace_from_mismatch old new c (s : string) :
  String.prefix old (String c s) = false →
  replace_from old new 0 (String c s) = String c (replace_from old new 0 s).
Proof. intros Hp. cbn [replace_from]. by rewrite Hp. Qed.

Lemma replace_from_replaced_all old new (n : nat) (s : string) :
  old ≠ "" → (String.length s ≤ n)%nat →
  replaced_all old new s (replace_from old new 0 s).
Proof.
  intros Hold. revert s. induction n as [|n IH]; intros s Hlen.
  { destruct s; [|simpl in Hlen; lia]. apply replaced_none.
    by destruct old. }
  destruct s as [|c s]; [apply replaced_none; by destruct old|].
  destruct (String.prefix old (String c s)) eqn:Hp.
  - apply prefix_inv in Hp as [b Hb]. rewrite Hb, replace_from_match by done.
    apply (replaced_first old new "" b).
    + intros a1 a2 Ha. by destruct a1, a2.
    + apply IH. apply (f_equal String.length) in Hb.
      rewrite string_length_app in Hb. simpl in *.
      destruct old; [done|]. simpl in Hb. lia.
  - rewrite replace_from_mismatch by done.
    assert (replaced_all old new s (replace_from old new 0 s)) as Hs
      by (apply IH; simpl in Hlen; lia).
    remember (replace_from old new 0 s) as r eqn:Hr. clear Hr IH Hlen.
    destruct Hs as [s Hnone|a b b' Hfirst Hb].
    + apply replaced_none. cbn [contains]. by rewrite Hp, Hnone.
    + rewrite <- !string_app_cons. apply replaced_first; [|done].
      intros [|c1 a1] a2 Ha Ha2.
      * rewrite string_app_empty_l in Ha. subst a2.
        by rewrite string_app_cons.
      * rewrite string_app_cons in Ha. injection Ha as <- ->.
        by apply (Hfirst a1 a2).
Qed.

Lemma str_replace_replaced_all (s old new : string) :
  old ≠ "" → replaced_all old new s (str_replace s old new).
Proof.
  intros Hold. unfold str_replace. rewrite decide_False by done.
  by apply (replace_from_replaced_all old new (String.length s)).
Qed.

Lemma replaced_all_absent old new (s s' : string) :
  contains old s = false → replaced_all old new s s' → s' = s.
Proof.
  intros Hnone Hs. destruct Hs as [|a b b' _ _]; [done|].
  assert (contains old (a +:+ old +:+ b) = true) as Hc
    by (apply contains_true_iff; eauto).
  congruence.
Qed.

Lemma placeholder_nonempty (axis : string) : "{" +:+ axis +:+ "}" ≠ "".
Proof. done. Qed.

Lemma first_occurrence_unique old (a b a' b' : string) :
  (∀ a1 a2, a = a1 +:+ a2 → a2 ≠ "" →
            String.prefix old (a2 +:+ old +:+ b) = false) →
  (∀ a1 a2, a' = a1 +:+ a2 → a2 ≠ "" →
            String.prefix old (a2 +:+ old +:+ b') = false) →
  a +:+ old +:+ b = a' +:+ old +:+ b' → a = a'.
Proof.
  revert a'. induction a as [|c a IH]; intros [|c' a'] Ha Ha' Heq.
  - done.
  - rewrite string_app_empty_l in Heq.
    specialize (Ha' "" (String c' a') eq_refl ltac:(done)).
    by rewrite <- Heq, prefix_app in Ha'.
  - rewrite string_app_empty_l in Heq.
    specialize (Ha "" (String c a) eq_refl ltac:(done)).
    by rewrite Heq, prefix_app in Ha.
  - rewrite !string_app_cons in Heq. injection Heq as <- Heq.
    f_equal. apply IH; [| |done].
    + intros a1 a2 -> Hne. by apply (Ha (String c a1) a2).
    + intros a1 a2 -> Hne. by apply (Ha' (String c a1) a2).
Qed.

(** The words of the specification fix the result. *)
Lemma replaced_all_functional old new (s r1 r2 : string) :
  replaced_all old new s r1 → replaced_all old new s r2 → r1 = r2.
Proof.
  intros H1. revert r2.
  induction H1 as [s Hnone|a b b' Hfirst Hb IH]; intros r2 H2.
  - symmetry. by eapply replaced_all_absent.
  - remember (a +:+ old +:+ b) as s eqn:Hs.
    destruct H2 as [s Hnone|a2 b2 b2' Hfirst2 Hb2].
    + assert (contains old s = true) as Hc
        by (apply contains_true_iff; eauto).
      congruence.
    + assert (a2 = a) as -> by (by eapply first_occurrence_unique).
      apply (inj (String.app a)), (inj (String.app old)) in Hs as ->.
      f_equal. f_equal. by apply IH.
Qed.

(** *** The result key *)

Lemma concat_names_cons x names :
  concat_names (x :: names) = x +:+ concat_names names.
Proof. reflexivity. Qed.

Lemma axes_str_loop_concat pairs axes_str :
  axes_str_loop pairs axes_str =
    axes_str +:+ concat_names (filter (λ pair, is_Some pair.1) pairs).*2.
Proof.
  revert axes_str.
  induction pairs as [|[t axis_name] pairs IH]; intros axes_str.
  { simpl. by rewrite string_app_empty_r. }
  cbn [axes_str_loop]. rewrite IH. destruct t as [T|].
  - rewrite filter_cons_True by (by eexists).
    by rewrite fmap_cons, concat_names_cons, string_app_assoc.
  - rewrite filter_cons_False; [done|]. by intros [? [=]].
Qed.

Lemma split_axis_names_unsplit tile_shape names :
  Forall (λ t, t = None) tile_shape → split_axis_names tile_shape names = [].
Proof.
  intros Hall. revert names. unfold split_axis_names.
  induction Hall as [|t tile_shape -> _ IH]; intros [|axis_name names];
    try done.
  cbn [zip zip_with]. rewrite filter_cons_False; [apply IH|]. by intros [? [=]].
Qed.

(** The result key in general: "<parameter>-untiled" when the
    concatenated names of the split axes (those paired with an integer
    tileShape entry) is the empty string, which covers a tileset without
    any integer entry, and otherwise "<parameter>-", that concatenation
    and "_tiling"; split axes "y", "x" give "<parameter>-yx_tiling".  It
    is the key of the specification whenever no entry is an integer or
    that concatenation is not empty. *)
Theorem result_key_of_split_axes (param : string)
    (tile_shape : list (option Z)) (p_axis_names : list string) :
  let axes := concat_names (split_axis_names tile_shape p_axis_names) in
  da_key param tile_shape p_axis_names =
    (if decide (axes = "") then param +:+ "-untiled"
     else param +:+ "-" +:+ axes +:+ "_tiling") ∧
  (Forall (λ t, t = None) tile_shape →
   da_key param tile_shape p_axis_names = param +:+ "-untiled") ∧
  (Forall (λ t, t = None) tile_shape ∨ axes ≠ "" →
   da_key param tile_shape p_axis_names =
     spec_result_key param tile_shape p_axis_names) ∧
  (∀ Ty Tx, da_key param [Some Ty; Some Tx] ["y"; "x"] =
              param +:+ "-yx_tiling").
Proof.
  intros axes.
  assert (da_key param tile_shape p_axis_names =
    (if decide (axes = "") then param +:+ "-untiled"
     else param +:+ "-" +:+ axes +:+ "_tiling")) as Hkey.
  { unfold da_key. rewrite axes_str_loop_concat. simpl.
    fold (split_axis_names tile_shape p_axis_names). fold axes.
    destruct (decide (axes = "")) as [->|Hne]; [done|].
    rewrite decide_False; [done|]. by rewrite string_length_0. }
  assert (Forall (λ t, t = None) tile_shape → axes = "") as Hnone.
  { intros Hall. unfold axes. by rewrite split_axis_names_unsplit. }
  split_and!; [done| |..].
  - intros Hall. rewrite Hkey, decide_True; auto.
  - intros Hcase. rewrite Hkey. unfold spec_result_key. fold axes.
    destruct (decide (Forall _ tile_shape)) as [Hall|Hsome].
    + rewrite decide_True; auto.
    + destruct Hcase as [?|Hne]; [done|]. by rewrite decide_False.
  - done.
Qed.

(** *** The cartesian product of the index ranges *)

Lemma elem_of_product {A} (pools : list (list A)) (l : list A) :
  l ∈ product pools ↔ Forall2 (λ x pool, x ∈ pool) l pools.
Proof.
  revert l. induction pools as [|pool pools IH]; intros l; simpl.
  - rewrite list_elem_of_singleton. split; [by intros ->|].
    apply Forall2_nil_inv_r.
  - rewrite list_elem_of_bind. split.
    + intros (x & (l' & -> & Hl')%list_elem_of_fmap & Hx).
      constructor; [done|]. by apply IH.
    + intros (x & l' & Hx & Hl' & ->)%Forall2_cons_inv_r.
      exists x. split; [|done]. apply list_elem_of_fmap.
      exists l'. split; [done|]. by apply IH.
Qed.

Lemma length_bind_const {A B} (f : A → list B) (l : list A) (n : nat) :
  (∀ x, length (f x) = n) → length (l ≫= f) = (length l * n)%nat.
Proof.
  intros Hf. induction l as [|x l IH]; [done|].
  rewrite bind_cons, length_app, Hf, IH. simpl. lia.
Qed.

Lemma length_product {A} (pools : list (list A)) :
  length (product pools) = prod_nat (length <$> pools).
Proof.
  induction pools as [|pool pools IH]; simpl; [done|].
  rewrite (length_bind_const _ _ (length (product pools))).
  - by rewrite IH.
  - intros x. by rewrite length_fmap.
Qed.

Lemma NoDup_product {A} (pools : list (list A)) :
  Forall NoDup pools → NoDup (product pools).
Proof.
  induction 1 as [|pool pools Hpool _ IH]; simpl.
  - apply NoDup_singleton.
  - apply NoDup_bind; [| |done].
    + intros x1 x2 l _ _ (l1 & -> & _)%list_elem_of_fmap
        (l2 & [= -> _] & _)%list_elem_of_fmap. done.
    + intros x _. apply NoDup_fmap_2; [|done]. by intros l1 l2 [= ->].
Qed.

Lemma elem_of_axis_coords (tiles : list Z) (c : Z) :
  c ∈ axis_coords tiles ↔ 0 ≤ c < Z.of_nat (length tiles).
Proof. unfold axis_coords. rewrite elem_of_seqZ. lia. Qed.

Lemma elem_of_tile_coords (sizes : list (list Z)) (coord : list Z) :
  coord ∈ product (axis_coords <$> sizes) ↔
  Forall2 (λ c tiles, 0 ≤ c < Z.of_nat (length tiles)) coord sizes.
Proof.
  rewrite elem_of_product, Forall2_fmap_r.
  split; intros H; eapply Forall2_impl; try exact H;
    intros c tiles; apply elem_of_axis_coords.
Qed.

Lemma NoDup_tile_coords (sizes : list (list Z)) :
  NoDup (product (axis_coords <$> sizes)).
Proof.
  apply NoDup_product, Forall_fmap, Forall_true.
  intros tiles. apply NoDup_seqZ.
Qed.

Lemma length_tile_coords (sizes : list (list Z)) :
  length (product (axis_coords <$> sizes)) = prod_nat (length <$> sizes).
Proof.
  rewrite length_product, <- list_fmap_compose. f_equal.
  apply list_fmap_ext. intros _ tiles _. simpl.
  unfold axis_coords. rewrite length_seqZ. lia.
Qed.

(** *** Later insertions win *)

Section LastWins.
Context {V : Type}.
Implicit Types (entries : list (string * V)) (acc : gmap string V).

Lemma store_all_app acc entries1 entries2 :
  store_all acc (entries1 ++ entries2) =
    store_all (store_all acc entries1) entries2.
Proof. apply foldl_app. Qed.

Lemma lookup_store_all_other acc entries k :
  Forall (λ entry, entry.1 ≠ k) entries →
  store_all acc entries !! k = acc !! k.
Proof.
  intros Hne. revert acc.
  induction Hne as [|entry entries Hk _ IH]; intros acc; [done|].
  cbn. change (store_all (<[entry.1:=entry.2]> acc) entries !! k = acc !! k).
  by rewrite IH, lookup_insert_ne.
Qed.


Lemma dom_store_all acc entries :
  dom (store_all acc entries) = dom acc ∪ list_to_set entries.*1.
Proof.
  revert acc. induction entries as [|entry entries IH]; intros acc.
  - cbn. set_solver.
  - cbn. change (dom (store_all (<[entry.1:=entry.2]> acc) entries) =
                 dom acc ∪ list_to_set (entry.1 :: entries.*1)).
    rewrite IH, dom_insert_L. set_solver.
Qed.

Lemma size_list_to_set_le (keys : list string) :
  (size (list_to_set (C:=gset string) keys) ≤ length keys)%nat.
Proof.
  induction keys as [|k keys IH]; [done|].
  rewrite list_to_set_cons, size_union_alt, size_singleton. simpl.
  pose proof (subseteq_size (list_to_set keys ∖ {[k]})
                (list_to_set (C:=gset string) keys)) as Hle.
  specialize (Hle ltac:(set_solver)). lia.
Qed.

End LastWins.


(** *** Reshaping *)

Lemma prod_nat_to_nat (newshape : list Z) :
  Forall (λ d, 0 ≤ d) newshape →
  Z.of_nat (prod_nat (Z.to_nat <$> newshape)) = prod_list newshape.
Proof.
  induction 1 as [|d l Hd _ IH]; [done|].
  rewrite fmap_cons. unfold prod_nat, prod_list in *. simpl. lia.
Qed.

Lemma length_runs {A} (k n : nat) (data : list A) :
  length (runs k n data) = n.
Proof.
  revert data. induction n as [|n IH]; intros data; simpl; [done|].
  by rewrite IH.
Qed.

Lemma lookup_runs {A} (k n i : nat) (data : list A) :
  (i < n)%nat → runs k n data !! i = Some (take k (drop (i * k) data)).
Proof.
  revert i data. induction n as [|n IH]; intros i data Hi; [lia|].
  destruct i as [|i]; simpl; [done|].
  rewrite IH by lia. by rewrite drop_drop, (Nat.add_comm k).
Qed.

Lemma elem_of_runs_length {A} (k n : nat) (data run : list A) :
  length data = (n * k)%nat → run ∈ runs k n data → length run = k.
Proof.
  intros Hlen (i & Hi)%list_elem_of_lookup.
  assert (i < n)%nat as Hlt.
  { apply lookup_lt_Some in Hi. by rewrite length_runs in Hi. }
  rewrite lookup_runs in Hi by done. injection Hi as <-.
  rewrite length_take, length_drop. nia.
Qed.

(** Nesting a list of the right length gives the element at the
    row-major offset under every multi-index within the dimensions. *)
Lemma nest_row_major {A} (dims : list nat) (data : list A) :
  length data = prod_nat dims →
  ∃ t, nest dims data = Some t ∧
    ∀ idx, Forall2 (λ i d, (i < d)%nat) idx dims →
      ∃ v, data !! ravel dims idx = Some v ∧
           nested_get t idx = Some (Item v).
Proof.
  revert data. induction dims as [|d dims IH]; intros data Hlen.
  - destruct data as [|a [|? ?]]; try done.
    exists (Item a). split; [done|].
    intros idx ->%Forall2_nil_inv_r. by exists a.
  - change (prod_nat (d :: dims)) with (d * prod_nat dims)%nat in Hlen.
    set (k := prod_nat dims) in *.
    assert (is_Some (mapM (nest dims) (runs k d data))) as [rows Hrows].
    { apply mapM_is_Some, Forall_forall. intros run Hrun. simpl.
      destruct (IH run) as (t & -> & _); [|done].
      by apply (elem_of_runs_length k d data). }
    exists (Rows rows). split; [simpl; fold k; by rewrite Hrows|].
    intros idx (i & idx' & Hi & Hidx & ->)%Forall2_cons_inv_r.
    apply mapM_Some_1 in Hrows.
    pose proof (lookup_runs k d i data Hi) as Hrun.
    destruct (Forall2_lookup_l _ _ _ _ _ Hrows Hrun) as (t & Ht & Hnest).
    destruct (IH (take k (drop (i * k) data))) as (t' & Ht' & Hget).
    { apply (elem_of_runs_length k d data); [done|].
      eapply list_elem_of_lookup_2, Hrun. }
    assert (t' = t) as -> by congruence.
    destruct (Hget idx' Hidx) as (v & Hv & Hitem).
    exists v. split; [|simpl; by rewrite Ht].
    simpl. fold k. apply lookup_take_Some in Hv as [Hv _].
    by rewrite lookup_drop in Hv.
Qed.

(** *** Chunk sizes of whole tilesets *)

Lemma axis_tiles_divisor E t :
  axis_tiles E t = axis_tiles E (Some (default E t)).
Proof. by destruct t. Qed.

Lemma axis_tiles_partition E T :
  0 ≤ E → 0 < T →
  ∃ tiles, axis_tiles E (Some T) = Ok tiles ∧
    sum_list tiles = E ∧ Forall (λ c, 0 < c) tiles ∧
    Z.of_nat (length tiles) = ceil_div E T.
Proof.
  intros HE HT. eexists. split; [apply axis_tiles_split; lia|].
  pose proof (Z.mod_pos_bound E T HT) as Hm.
  pose proof (Z.div_mod E T ltac:(lia)) as Hdm.
  assert (0 ≤ E `div` T) as Hq by (apply Z.div_pos; lia).
  split_and!.
  - rewrite sum_list_app, sum_list_replicate, Z2Nat.id by done.
    destruct (decide (E `mod` T > 0)); simpl; lia.
  - apply Forall_app. split; [by apply Forall_replicate|].
    destruct (decide (E `mod` T > 0)); repeat constructor; lia.
  - apply eq_sym, ceil_div_spec; [done|].
    rewrite length_app, length_replicate.
    destruct (decide (E `mod` T > 0)); simpl length; nia.
Qed.

Lemma axes_tile_sizes_partition pairs :
  Forall covered_pair pairs →
  ∃ sizes, axes_tile_sizes pairs = Ok sizes ∧
    sum_list <$> sizes = pairs.*1 ∧
    Forall (Forall (λ c, 0 < c)) sizes ∧
    length <$> sizes = tiles_along <$> pairs.
Proof.
  induction 1 as [|[E t] pairs [HE HT] _ (sizes & Hs & Hsum & Hpos & Hlen)].
  { by exists []. }
  simpl in HE, HT.
  destruct (axis_tiles_partition E (default E t) HE HT)
    as (tiles & Ht & Htsum & Htpos & Htlen).
  exists (tiles :: sizes). cbn [axes_tile_sizes].
  rewrite axis_tiles_divisor, Ht. simpl. rewrite Hs. simpl.
  split_and!; [done| |by constructor|].
  - change (sum_list tiles :: (sum_list <$> sizes) = E :: pairs.*1).
    by rewrite Htsum, Hsum.
  - change (length tiles :: (length <$> sizes) =
            tiles_along (E, t) :: (tiles_along <$> pairs)).
    rewrite Hlen. f_equal. unfold tiles_along. simpl. lia.
Qed.

Lemma axis_tiles_chunkless E T :
  (0 < E ∧ T < 0) ∨ (E = 0 ∧ T ≠ 0) → axis_tiles E (Some T) = Ok [].
Proof.
  intros Hcase. rewrite axis_tiles_split by lia.
  destruct Hcase as [[HE HT]|[-> HT]].
  - pose proof (Z.mod_neg_bound E T HT) as Hm.
    pose proof (Z.div_mod E T ltac:(lia)) as Hdm.
    assert (E `div` T < 0) as Hq by nia.
    rewrite decide_False by lia.
    by replace (Z.to_nat (E `div` T)) with 0%nat by lia.
  - rewrite Z.div_0_l, Z.mod_0_l by done. by rewrite decide_False by lia.
Qed.

Lemma product_empty_pool {A} (pools : list (list A)) :
  [] ∈ pools → product pools = [].
Proof.
  induction pools as [|pool pools IH]; [by intros ?%elem_of_nil|].
  intros [<-|Hin]%elem_of_cons; simpl; [done|].
  rewrite IH by done. clear. induction pool as [|x pool IHp]; [done|].
  by rewrite bind_cons, IHp.
Qed.

Lemma axes_tile_sizes_Forall2 pairs sizes :
  axes_tile_sizes pairs = Ok sizes →
  Forall2 (λ pair tiles, axis_tiles pair.1 pair.2 = Ok tiles) pairs sizes.
Proof.
  revert sizes. induction pairs as [|[E t] pairs IH]; intros sizes; simpl.
  { intros [= <-]. constructor. }
  destruct (axis_tiles E t) as [tiles|] eqn:Ht; simpl; [|done].
  destruct (axes_tile_sizes pairs) as [more|]; simpl; [|done].
  intros [= <-]. constructor; [done|]. by apply IH.
Qed.

Lemma fst_zip_take {A B} (l : list A) (k : list B) :
  (zip l k).*1 = take (length k) l.
Proof.
  revert k. induction l as [|x l IH]; intros [|y k]; simpl; try done.
  by rewrite IH.
Qed.

Lemma axes_tile_sizes_unsplit (p_shape : list Z) (tile_shape : list (option Z)) :
  Forall (λ E, E ≠ 0) p_shape → Forall (λ t, t = None) tile_shape →
  axes_tile_sizes (zip p_shape tile_shape) =
    Ok ((λ E, [E]) <$> take (length tile_shape) p_shape).
Proof.
  intros Hs. revert tile_shape.
  induction Hs as [|E p_shape HE _ IH]; intros [|t tile_shape] Ht; try done.
  inversion Ht as [|? ? -> Ht']; subst. cbn [zip zip_with axes_tile_sizes].
  rewrite IH by done.
  rewrite (axis_tiles_divisor E None), axis_tiles_split by done. simpl.
  rewrite Z.div_same, Z.mod_same by done. by rewrite decide_False by lia.
Qed.

Lemma product_singletons (l : list Z) :
  product (axis_coords <$> ((λ E, [E]) <$> l)) = [replicate (length l) 0].
Proof.
  induction l as [|E l IH]; [done|].
  rewrite !fmap_cons. cbn [product]. rewrite IH. reflexivity.
Qed.

Lemma da_key_unsplit param (tile_shape : list (option Z))
    (p_axis_names : list string) :
  Forall (λ t, t = None) tile_shape →
  da_key param tile_shape p_axis_names = param +:+ "-untiled".
Proof.
  intros Hall. unfold da_key. rewrite axes_str_loop_concat.
  fold (split_axis_names tile_shape p_axis_names).
  by rewrite split_axis_names_unsplit.
Qed.

(** *** What a sequence of stores leaves in the dictionary *)

Lemma lookup_store_all_Some {V} (acc : gmap string V)
    (entries : list (string * V)) (k : string) (v : V) :
  store_all acc entries !! k = Some v →
  acc !! k = Some v ∨ (k, v) ∈ entries.
Proof.
  revert acc. induction entries as [|[k' v'] entries IH]; intros acc Hk.
  { by left. }
  change (store_all (<[k':=v']> acc) entries !! k = Some v) in Hk.
  apply IH in Hk as [Hk|Hk]; [|right; by right].
  destruct (decide (k' = k)) as [->|Hne].
  - rewrite lookup_insert_eq in Hk. injection Hk as ->. right. by left.
  - rewrite lookup_insert_ne in Hk by done. by left.
Qed.

Lemma lookup_store_all_NoDup {V} (acc : gmap string V)
    (entries : list (string * V)) (k : string) (v : V) :
  NoDup entries.*1 → (k, v) ∈ entries →
  store_all acc entries !! k = Some v.
Proof.
  intros Hnd. revert acc.
  induction entries as [|[k' v'] entries IH]; intros acc Hin.
  { by apply elem_of_nil in Hin. }
  rewrite fmap_cons in Hnd. apply NoDup_cons in Hnd as [Hfresh Hnd].
  change (store_all (<[k':=v']> acc) entries !! k = Some v).
  apply elem_of_cons in Hin as [[= -> ->]|Hin]; [|by apply IH].
  rewrite lookup_store_all_other; [by rewrite lookup_insert_eq|].
  apply Forall_forall. intros [k'' v''] Hin <-. apply Hfresh.
  apply list_elem_of_fmap. by exists (k'', v'').
Qed.

Lemma elem_of_jobs_of rs ps (job : string * range_descriptor * tileset) :
  job ∈ jobs_of rs ps ↔
  job.1.1 ∈ ps ∧ rs !! job.1.1 = Some job.1.2 ∧ job.2 ∈ tileSets job.1.2.
Proof.
  unfold jobs_of. rewrite list_elem_of_bind. split.
  - intros (p & Hjob & Hp). destruct (rs !! p) as [r|] eqn:Hr;
      [|by apply elem_of_nil in Hjob].
    apply list_elem_of_fmap in Hjob as (ts & -> & Hts). by simpl.
  - destruct job as [[p r] ts]. simpl. intros (Hp & Hr & Hts).
    exists p. rewrite Hr. split; [|done].
    apply list_elem_of_fmap. by exists ts.
Qed.

(** *** Result keys of one parameter *)

Lemma string_app_inj_r (s1 s2 t : string) : s1 +:+ t = s2 +:+ t → s1 = s2.
Proof.
  revert s2. induction s1 as [|c s1 IH]; intros [|c2 s2] Heq; [done|..].
  - apply (f_equal String.length) in Heq.
    rewrite !string_length_app in Heq. simpl in Heq. lia.
  - apply (f_equal String.length) in Heq.
    rewrite !string_length_app in Heq. simpl in Heq. lia.
  - rewrite !string_app_cons in Heq. injection Heq as -> Heq.
    by rewrite (IH s2).
Qed.

Lemma da_key_concat param (tile_shape : list (option Z))
    (p_axis_names : list string) :
  da_key param tile_shape p_axis_names =
    let axes := concat_names (split_axis_names tile_shape p_axis_names) in
    if decide (axes = "") then param +:+ "-untiled"
    else param +:+ "-" +:+ axes +:+ "_tiling".
Proof.
  unfold da_key. rewrite axes_str_loop_concat. simpl.
  fold (split_axis_names tile_shape p_axis_names).
  destruct (decide (concat_names _ = "")) as [->|Hne]; [done|].
  rewrite decide_False; [done|]. by rewrite string_length_0.
Qed.

(** X10: two tilesets of one parameter get the same result key exactly
    when the names of their split axes concatenate to the same string;
    in particular an untiled key never equals a tiling key. *)
Theorem result_keys_collide_iff (param : string)
    (tile_shape1 tile_shape2 : list (option Z))
    (p_axis_names1 p_axis_names2 : list string) :
  da_key param tile_shape1 p_axis_names1 =
    da_key param tile_shape2 p_axis_names2 ↔
  concat_names (split_axis_names tile_shape1 p_axis_names1) =
    concat_names (split_axis_names tile_shape2 p_axis_names2).
Proof.
  rewrite !da_key_concat. simpl.
  set (a1 := concat_names (split_axis_names tile_shape1 p_axis_names1)).
  set (a2 := concat_names (split_axis_names tile_shape2 p_axis_names2)).
  assert (∀ a, a ≠ "" → "-untiled" ≠ "-" +:+ a +:+ "_tiling") as Hmix.
  { intros a Ha Heq. rewrite string_app_cons, string_app_empty_l in Heq.
    injection Heq as Heq. apply (f_equal String.length) in Heq.
    rewrite string_length_app in Heq. simpl in Heq.
    apply Ha, string_length_0. lia. }
  destruct (decide (a1 = "")) as [H1|H1], (decide (a2 = "")) as [H2|H2].
  - split; [congruence|done].
  - split; [|congruence]. intros Heq%(inj (String.app param)).
    by apply Hmix in Heq.
  - split; [|congruence]. intros Heq%(inj (String.app param)).
    symmetry in Heq. by apply Hmix in Heq.
  - split; [|by intros ->].
    intros Heq%(inj (String.app param))%(inj (String.app "-")).
    by apply string_app_inj_r in Heq.
Qed.

(** *** A placeholder that occurs once *)

Lemma occurrences_0_contains (old s : string) :
  occurrences old s = 0%nat → contains old s = false.
Proof.
  induction s as [|c s IH]; cbn [occurrences contains].
  - destruct (String.prefix old ""); [done|by rewrite orb_false_l].
  - destruct (String.prefix old (String c s)); [done|].
    rewrite orb_false_l. intros H. apply IH. lia.
Qed.

Lemma contains_suffix (old a b : string) :
  contains old (a +:+ b) = false → contains old b = false.
Proof.
  intros Hab. destruct (contains old b) eqn:Hb; [|done].
  apply contains_true_iff in Hb as (x & y & ->).
  assert (contains old (a +:+ x +:+ old +:+ y) = true) as Hc.
  { apply contains_true_iff. exists (a +:+ x), y.
    by rewrite string_app_assoc. }
  congruence.
Qed.

Lemma single_occurrence_split (old s : string) :
  old ≠ "" → occurrences old s = 1%nat →
  ∃ pre post, s = pre +:+ old +:+ post ∧
    (∀ a1 a2, pre = a1 +:+ a2 → a2 ≠ "" →
              String.prefix old (a2 +:+ old +:+ post) = false) ∧
    contains old post = false.
Proof.
  intros Hold. induction s as [|c s IH]; cbn [occurrences].
  { destruct old; [done|]. simpl. lia. }
  destruct (String.prefix old (String c s)) eqn:Hp.
  - intros Hocc. assert (occurrences old s = 0%nat) as H0 by lia.
    apply occurrences_0_contains in H0.
    apply prefix_inv in Hp as [post Hpost].
    exists "", post. split; [done|]. split.
    + intros a1 a2 Ha. by destruct a1, a2.
    + destruct old as [|c' old]; [done|].
      rewrite string_app_cons in Hpost. injection Hpost as _ ->.
      by apply contains_suffix in H0.
  - intros Hocc. destruct IH as (pre & post & -> & Hfirst & Hpost); [lia|].
    exists (String c pre), post. split; [done|]. split; [|done].
    intros [|c1 a1] a2 Ha Ha2.
    + rewrite string_app_empty_l in Ha. subst a2.
      by rewrite string_app_cons.
    + rewrite string_app_cons in Ha. injection Ha as <- ->.
      by apply (Hfirst a1 a2).
Qed.

Lemma str_replace_single (s old : string) :
  old ≠ "" → occurrences old s = 1%nat →
  ∃ pre post, s = pre +:+ old +:+ post ∧
    ∀ new, str_replace s old new = pre +:+ new +:+ post.
Proof.
  intros Hold (pre & post & -> & Hfirst & Hpost)%single_occurrence_split;
    [|done].
  exists pre, post. split; [done|]. intros new.
  apply (replaced_all_functional old new (pre +:+ old +:+ post)).
  - by apply str_replace_replaced_all.
  - apply replaced_first; [done|]. by apply replaced_none.
Qed.

(** X11: when the placeholder of an axis occurs exactly once in the
    template, substituting an index puts its decimal string in place of
    the placeholder and leaves the text before and after as it is, so
    different indices along that axis give different URLs. *)
Theorem single_placeholder_url_injective (url_template axis : string) :
  occurrences ("{" +:+ axis +:+ "}") url_template = 1%nat →
  ∃ pre post,
    url_template = pre +:+ ("{" +:+ axis +:+ "}") +:+ post ∧
    (∀ i, substitute url_template (zip [axis] [i]) =
            pre +:+ str i +:+ post) ∧
    (∀ i j, substitute url_template (zip [axis] [i]) =
              substitute url_template (zip [axis] [j]) → i = j).
Proof.
  intros (pre & post & Hsplit & Hrep)%str_replace_single; [|done].
  exists pre, post. split; [done|].
  assert (∀ i, substitute url_template (zip [axis] [i]) =
               pre +:+ str i +:+ post) as Hsub.
  { intros i. cbn [zip zip_with substitute]. apply Hrep. }
  split; [done|]. intros i j. rewrite !Hsub.
  intros Heq%(inj (String.app pre))%string_app_inj_r.
  by apply (inj pretty) in Heq.
Qed.

(** *** Shapes that numpy accepts *)

Lemma filter_negative_nil (l : list Z) :
  filter (λ d, d < 0) l = [] → Forall (λ d, 0 ≤ d) l.
Proof.
  induction l as [|d l IH]; [done|].
  destruct (decide (d < 0)) as [Hd|Hd].
  - by rewrite filter_cons_True.
  - rewrite filter_cons_False by done. intros H. constructor; [lia|auto].
Qed.

Lemma filter_nonneg_all (l : list Z) :
  Forall (λ d, 0 ≤ d) l → filter (λ d, 0 ≤ d) l = l.
Proof.
  induction 1 as [|d l Hd _ IH]; [done|]. by rewrite filter_cons_True, IH.
Qed.

Lemma prod_list_nonneg (l : list Z) :
  Forall (λ d, 0 ≤ d) l → 0 ≤ prod_list l.
Proof.
  induction 1 as [|d l Hd _ IH]; unfold prod_list in *; simpl; lia.
Qed.

Lemma infer_dimension (q : Z) (l : list Z) (x : Z) :
  0 ≤ q → filter (λ d, d < 0) l = [x] →
  let dims := (λ d, if decide (d < 0) then q else d) <$> l in
  Forall (λ d, 0 ≤ d) dims ∧
  prod_list dims = q * prod_list (filter (λ d, 0 ≤ d) l).
Proof.
  intros Hq. induction l as [|d l IH]; [done|].
  rewrite fmap_cons. destruct (decide (d < 0)) as [Hd|Hd].
  - rewrite filter_cons_True by done. intros [= _ Hnil].
    apply filter_negative_nil in Hnil.
    rewrite (filter_cons_False (λ d, 0 ≤ d)) by lia.
    rewrite filter_nonneg_all by done.
    assert ((λ d, if decide (d < 0) then q else d) <$> l = l) as ->.
    { clear -Hnil. induction Hnil as [|d l Hd _ IH]; [done|].
      by rewrite fmap_cons, IH, decide_False by lia. }
    split; [by constructor|]. unfold prod_list. simpl. lia.
  - rewrite filter_cons_False by done. intros Hx.
    destruct (IH Hx) as [Hnn Hprod].
    rewrite (filter_cons_True (λ d, 0 ≤ d)) by lia.
    split; [constructor; [lia|done]|].
    unfold prod_list in *. simpl. rewrite Hprod. lia.
Qed.

Lemma prod_list_positive (l : list Z) :
  Forall (λ d, 0 < d) l → 0 < prod_list l.
Proof.
  induction 1 as [|d l Hd _ IH]; unfold prod_list in *; simpl; lia.
Qed.

Lemma prod_list_bounds_entries (l : list Z) :
  Forall (λ d, 0 < d) l → Forall (λ d, d ≤ prod_list l) l.
Proof.
  induction 1 as [|d l Hd Hl IH]; [constructor|].
  pose proof (prod_list_positive l Hl) as Hpos.
  change (prod_list (d :: l)) with (d * prod_list l).
  constructor; [nia|]. eapply Forall_impl; [exact IH|]. simpl. intros x Hx. nia.
Qed.

Lemma known_size_positive (max_intp : Z) (l : list Z) (s : Z) :
  Forall (λ d, 0 < d) l → 0 < s ≤ max_intp →
  known_size max_intp l s false =
    if decide (s * prod_list l ≤ max_intp) then Ok (s * prod_list l, false)
    else Err ValueError.
Proof.
  intros Hl. revert s. induction Hl as [|d l Hd Hl IH]; intros s Hs.
  { change (prod_list []) with 1. rewrite Z.mul_1_r.
    by rewrite decide_True by lia. }
  pose proof (prod_list_positive l Hl) as Hpos.
  change (prod_list (d :: l)) with (d * prod_list l).
  cbn [known_size]. rewrite decide_False by lia.
  destruct (decide (s * d > max_intp)) as [Hbig|Hfit].
  - rewrite decide_False; [done|]. nia.
  - rewrite IH by nia. by rewrite Z.mul_assoc.
Qed.

Lemma array_too_big_positive (max_intp : Z) (l : list Z) (nbytes : Z) :
  Forall (λ d, 0 < d) l → 0 < nbytes ≤ max_intp →
  array_too_big max_intp l nbytes =
    bool_decide (nbytes * prod_list l > max_intp).
Proof.
  intros Hl. revert nbytes.
  induction Hl as [|d l Hd Hl IH]; intros nbytes Hn.
  { change (prod_list []) with 1. rewrite Z.mul_1_r.
    by rewrite bool_decide_eq_false_2 by lia. }
  pose proof (prod_list_positive l Hl) as Hpos.
  change (prod_list (d :: l)) with (d * prod_list l).
  cbn [array_too_big]. rewrite decide_False by lia.
  destruct (decide (nbytes * d > max_intp)) as [Hbig|Hfit].
  - rewrite bool_decide_eq_true_2; [done|]. nia.
  - rewrite IH by nia. by rewrite Z.mul_assoc.
Qed.

(** Reshaping the array of a value list to a shape of positive entries. *)
Lemma reshape_positive_shape {number} (np : numpy number)
    (vals : list number) (newshape : list Z) :
  Forall (λ d, 0 < d) newshape →
  (length newshape ≤ npy_maxdims np)%nat →
  0 < np_itemsize np (np_cast np vals <$> vals) ≤ npy_max_intp np →
  np_itemsize np (np_cast np vals <$> vals) * Z.of_nat (length vals)
    ≤ npy_max_intp np →
  reshape np (np_array np vals) newshape =
    if decide (prod_list newshape = Z.of_nat (length vals))
    then Ok (NdArray (Z.to_nat <$> newshape) (np_cast np vals <$> vals))
    else Err ValueError.
Proof.
  intros Hpos Hdims Hitem Hfit. unfold reshape, np_array. simpl.
  set (data := np_cast np vals <$> vals) in *.
  assert (length data = length vals) as Hlen by apply length_fmap.
  rewrite Hlen. rewrite decide_False by lia.
  pose proof (prod_list_positive _ Hpos) as Hprod.
  pose proof (prod_list_bounds_entries _ Hpos) as Hbound.
  destruct (decide (prod_list newshape = Z.of_nat (length vals))) as [Heq|Hne].
  - rewrite decide_True.
    2:{ apply Forall_forall. intros d Hd.
        pose proof (proj1 (Forall_forall _ _) Hpos d Hd) as Hd1.
        pose proof (proj1 (Forall_forall _ _) Hbound d Hd) as Hd2.
        simpl in Hd1, Hd2. nia. }
    destruct (decide (newshape = [Z.of_nat (length vals)])) as [->|Hother].
    { simpl. by rewrite Nat2Z.id. }
    unfold fix_unknown_dimension.
    rewrite known_size_positive by (done || lia).
    rewrite Z.mul_1_l, decide_True by nia. simpl.
    rewrite decide_True by lia. cbn [mbind result_bind].
    rewrite array_too_big_positive by done.
    by rewrite bool_decide_eq_false_2 by nia.
  - destruct (decide (Forall _ newshape)) as [Hrange|]; [|done].
    rewrite decide_False.
    2:{ intros ->. apply Hne. unfold prod_list. simpl. lia. }
    unfold fix_unknown_dimension.
    rewrite known_size_positive by (done || lia). rewrite Z.mul_1_l.
    destruct (decide (prod_list newshape ≤ npy_max_intp np)); [|done].
    simpl. by rewrite decide_False by lia.
Qed.

Lemma known_size_Ok (max_intp : Z) (l : list Z) (s : Z) (u : bool)
    (k : Z) (u' : bool) :
  known_size max_intp l s u = Ok (k, u') →
  k = s * prod_list (filter (λ d, 0 ≤ d) l) ∧
  (if u then u' = true ∧ filter (λ d, d < 0) l = []
   else length (filter (λ d, d < 0) l) = if u' then 1%nat else 0%nat).
Proof.
  revert s u. induction l as [|d l IH]; intros s u; cbn [known_size].
  { intros [= <- <-]. change (prod_list (filter _ [])) with 1.
    split; [lia|]. by destruct u. }
  destruct (decide (d < 0)) as [Hd|Hd].
  - rewrite (filter_cons_True (λ d, d < 0)) by done.
    rewrite (filter_cons_False (λ d, 0 ≤ d)) by lia.
    destruct u; [done|]. intros [-> [-> Hnil]]%IH. split; [done|].
    simpl. by rewrite Hnil.
  - rewrite (filter_cons_False (λ d, d < 0)) by done.
    rewrite (filter_cons_True (λ d, 0 ≤ d)) by lia.
    destruct (decide (s * d > max_intp)); [done|].
    intros [-> Hu]%IH. split; [|done].
    change (prod_list (d :: ?l)) with (d * prod_list l). lia.
Qed.

Lemma fix_unknown_dimension_Ok (max_intp : Z) (newshape : list Z)
    (s_original : Z) (dims : list Z) :
  0 ≤ s_original →
  fix_unknown_dimension max_intp newshape s_original = Ok dims →
  Forall (λ d, 0 ≤ d) dims ∧ prod_list dims = s_original ∧
  length dims = length newshape.
Proof.
  intros Hsize. unfold fix_unknown_dimension.
  destruct (known_size _ _ _ _) as [[k u']|] eqn:Hk; simpl; [|done].
  apply known_size_Ok in Hk as [-> Hneg]. rewrite Z.mul_1_l.
  set (s_known := prod_list (filter (λ d, 0 ≤ d) newshape)).
  assert (0 ≤ s_known) as Hknown.
  { apply prod_list_nonneg. clear. induction newshape as [|d l IH];
      [done|]. destruct (decide (0 ≤ d)).
    - rewrite filter_cons_True by done. by constructor.
    - by rewrite filter_cons_False by done. }
  destruct u'.
  - destruct (filter (λ d, d < 0) newshape) as [|x [|? ?]] eqn:Hfilter;
      try done.
    destruct (decide _) as [|Hok]; [done|]. intros [= <-].
    assert (s_known ≠ 0 ∧ s_original `mod` s_known = 0) as [Hk0 Hmod]
      by (split; lia).
    destruct (infer_dimension (s_original `div` s_known) newshape x)
      as [Hnn Hprod]; [apply Z.div_pos; lia|done|].
    split; [done|]. split; [|by rewrite length_fmap].
    rewrite Hprod. fold s_known.
    pose proof (Z.div_mod s_original s_known Hk0). lia.
  - destruct (filter (λ d, d < 0) newshape) eqn:Hfilter; [|done].
    apply filter_negative_nil in Hfilter.
    destruct (decide _) as [->|]; [|done]. intros [= <-].
    split; [done|]. split; [|done].
    unfold s_known. by rewrite filter_nonneg_all.
Qed.

(** What any successful reshape of the array of a value list returns. *)
Lemma reshape_np_array_Ok {number} (np : numpy number) (vals : list number)
    (newshape : list Z) (arr : ndarray number) :
  reshape np (np_array np vals) newshape = Ok arr →
  nd_data arr = np_cast np vals <$> vals ∧
  length (nd_shape arr) = length newshape ∧
  prod_nat (nd_shape arr) = length vals.
Proof.
  unfold reshape, np_array. simpl.
  destruct (decide (_ < _)%nat); [done|].
  destruct (decide (Forall _ newshape)); [|done].
  destruct (decide (newshape = _)) as [->|_].
  { intros [= <-]. simpl. split; [done|]. split; [done|].
    unfold prod_nat. simpl. lia. }
  destruct (fix_unknown_dimension _ _ _) as [dims|] eqn:Hdims; simpl; [|done].
  destruct (array_too_big _ _ _); [done|]. intros [= <-]. simpl.
  apply fix_unknown_dimension_Ok in Hdims as (Hnn & Hprod & Hlen); [|lia].
  split; [done|]. split; [by rewrite length_fmap|].
  apply Nat2Z.inj. rewrite prod_nat_to_nat by done.
  by rewrite Hprod, length_fmap.
Qed.

Section Builder.
Context {number : Type}.
Variable requests_get : string → result response.
Variable json_loads_coverage : list Byte.byte → result coverage.
Variable json_loads_tile : list Byte.byte → result (tile_document number).
Variable np : numpy number.

Local Abbreviation get_tile := (get_tile requests_get json_loads_tile np).
Local Abbreviation build_tileset :=
  (build_tileset requests_get json_loads_tile np).
Local Abbreviation tilesets_loop :=
  (tilesets_loop requests_get json_loads_tile np).
Local Abbreviation params_loop := (params_loop requests_get json_loads_tile np).
Local Abbreviation build_dask_arrays :=
  (build_dask_arrays requests_get json_loads_tile np).
Local Abbreviation dask_graph_of :=
  (dask_graph_of requests_get json_loads_tile np).
Local Abbreviation build_job := (build_job requests_get json_loads_tile np).
Local Abbreviation np_array := (np_array np).
Local Abbreviation reshape := (reshape np).
Local Abbreviation get_data := (get_data requests_get).

Lemma build_tileset_Err param names p_shape ts e :
  build_tileset param names p_shape ts = Err e →
  e = ZeroDivisionError ∧ Exists zero_divisor (zip p_shape (tileShape ts)).
Proof.
  unfold build_tileset.
  destruct (axes_tile_sizes _) as [sizes|e'] eqn:Hs; simpl; [done|].
  intros [= ->]. by apply axes_tile_sizes_Err.
Qed.

Lemma build_tileset_zero_divisor param names p_shape ts :
  Exists zero_divisor (zip p_shape (tileShape ts)) →
  build_tileset param names p_shape ts = Err ZeroDivisionError.
Proof.
  intros Hz. unfold build_tileset.
  by rewrite axes_tile_sizes_zero_divisor.
Qed.

Lemma tilesets_loop_Err param names p_shape tss acc e :
  tilesets_loop param names p_shape tss acc = Err e →
  e = ZeroDivisionError ∧
  Exists (λ ts, Exists zero_divisor (zip p_shape (tileShape ts))) tss.
Proof.
  revert acc. induction tss as [|ts tss IH]; intros acc; simpl; [done|].
  destruct (build_tileset param names p_shape ts) as [entry|e'] eqn:Hb; simpl.
  - intros [-> ?]%IH. split; [done|]. by apply Exists_cons_tl.
  - intros [= ->]. apply build_tileset_Err in Hb as [-> ?].
    split; [done|]. by apply Exists_cons_hd.
Qed.

Lemma tilesets_loop_zero_divisor param names p_shape tss acc :
  Exists (λ ts, Exists zero_divisor (zip p_shape (tileShape ts))) tss →
  tilesets_loop param names p_shape tss acc = Err ZeroDivisionError.
Proof.
  intros Hz. revert acc.
  induction Hz as [ts tss Hz|ts tss Hz IH]; intros acc; simpl.
  - by rewrite build_tileset_zero_divisor.
  - destruct (build_tileset param names p_shape ts) as [entry|e] eqn:Hb; simpl.
    + apply IH.
    + by apply build_tileset_Err in Hb as [-> _].
Qed.

(** Every way the loop over the parameters can fail. *)
Lemma params_loop_Err cov ps acc e :
  params_loop cov ps acc = Err e →
  (ps ≠ [] ∧ ranges cov = None ∧ e = KeyError "ranges") ∨
  (∃ rs p, ranges cov = Some rs ∧ p ∈ ps ∧ rs !! p = None ∧ e = KeyError p) ∨
  (∃ rs p r, ranges cov = Some rs ∧ p ∈ ps ∧ rs !! p = Some r ∧
             has_zero_divisor r ∧ e = ZeroDivisionError).
Proof.
  revert acc. induction ps as [|p ps IH]; intros acc; simpl; [done|].
  destruct (ranges cov) as [rs|] eqn:Hrs; simpl;
    [|intros [= <-]; by left].
  destruct (rs !! p) as [r|] eqn:Hp; simpl.
  - destruct (tilesets_loop _ _ _ _ _) as [acc'|e'] eqn:Hl; simpl.
    + intros He. apply IH in He as [(_ & ? & _)|[He|He]]; [done|..].
      * right. left. destruct He as (rs' & p' & ? & ? & ? & ?).
        exists rs', p'. by rewrite elem_of_cons; auto.
      * right. right. destruct He as (rs' & p' & r' & ? & ? & ? & ? & ?).
        exists rs', p', r'. by rewrite elem_of_cons; auto 6.
    + intros [= ->]. apply tilesets_loop_Err in Hl as [-> Hz].
      right. right. exists rs, p, r. rewrite elem_of_cons. auto 6.
  - intros [= <-]. right. left. exists rs, p. rewrite elem_of_cons. auto.
Qed.

Lemma params_loop_zero_divisor cov ps rs acc p r :
  ranges cov = Some rs → Forall (λ p, is_Some (rs !! p)) ps →
  p ∈ ps → rs !! p = Some r → has_zero_divisor r →
  params_loop cov ps acc = Err ZeroDivisionError.
Proof.
  intros Hrs Hall Hin Hp Hz. revert acc.
  induction Hall as [|q ps [rq Hq] Hall IH]; intros acc; [by inversion Hin|].
  simpl. rewrite Hrs. simpl. rewrite Hq. simpl.
  destruct (tilesets_loop _ _ _ _ _) as [acc'|e] eqn:Hl; simpl.
  - apply elem_of_cons in Hin as [->|Hin]; [|by apply IH].
    assert (rq = r) as -> by congruence.
    by rewrite tilesets_loop_zero_divisor in Hl.
  - by apply tilesets_loop_Err in Hl as [-> _].
Qed.

Lemma params_loop_zero_divisor_fails cov ps rs acc p r :
  ranges cov = Some rs → p ∈ ps → rs !! p = Some r → has_zero_divisor r →
  ∃ e, params_loop cov ps acc = Err e ∧
       (e = ZeroDivisionError ∨
        ∃ q, q ∈ ps ∧ rs !! q = None ∧ e = KeyError q).
Proof.
  intros Hrs Hin Hp Hz. revert acc.
  induction ps as [|q ps IH]; intros acc; [by apply elem_of_nil in Hin|].
  simpl. rewrite Hrs. simpl.
  destruct (rs !! q) as [rq|] eqn:Hq; simpl.
  - destruct (tilesets_loop _ _ _ _ _) as [acc'|e] eqn:Hl; simpl.
    + apply elem_of_cons in Hin as [->|Hin].
      { assert (rq = r) as -> by congruence.
        by rewrite tilesets_loop_zero_divisor in Hl. }
      destruct (IH Hin acc') as (e & -> & [->|(q' & ? & ? & ->)]).
      * eexists. split; [done|]. by left.
      * eexists. split; [done|]. right. exists q'.
        rewrite elem_of_cons. auto.
    + apply tilesets_loop_Err in Hl as [-> _]. eexists. split; [done|].
      by left.
  - eexists. split; [done|]. right. exists q. rewrite elem_of_cons. auto.
Qed.

Lemma positive_sizes_no_zero_division cov :
  positive_sizes cov → build_dask_arrays cov ≠ Err ZeroDivisionError.
Proof.
  intros Hpos. unfold build_dask_arrays.
  destruct (parameters cov) as [ps|]; simpl; [|done].
  intros He. apply params_loop_Err in He
    as [(_ & _ & ?)|[(? & ? & _ & _ & _ & ?)|He]]; [done..|].
  destruct He as (rs & p & r & Hrs & _ & Hp & Hz & _).
  unfold positive_sizes in Hpos. rewrite Hrs in Hpos.
  destruct (Hpos p r Hp) as [Hshape Htiles].
  apply Exists_exists in Hz as (ts & Hts & Hz).
  rewrite Forall_forall in Htiles.
  apply (positive_pairs_no_zero_divisor (shape r) (tileShape ts)); auto.
Qed.

(** C10 (as amended): with every shape entry and every integer tileShape
    entry positive, no axis computation divides by zero, so the build never
    raises ZeroDivisionError; a tile size of 0 paired with a shape
    entry, or an unsplit paired axis of extent 0, raises it for that
    axis and for its tileset, and a
    document holding such an axis under a listed parameter never yields
    a mapping: the build ends in ZeroDivisionError, unless a listed
    parameter without a range has raised its KeyError first. *)
Theorem division_by_zero_exactly_at_zero_sizes :
  (∀ E t, 0 < E → positive_tile_size t → is_Ok (axis_tiles E t)) ∧
  (∀ cov, positive_sizes cov →
          build_dask_arrays cov ≠ Err ZeroDivisionError) ∧
  (∀ E, axis_tiles E (Some 0) = Err ZeroDivisionError) ∧
  axis_tiles 0 None = Err ZeroDivisionError ∧
  (∀ param names p_shape ts,
     Exists zero_divisor (zip p_shape (tileShape ts)) →
     build_tileset param names p_shape ts = Err ZeroDivisionError) ∧
  (∀ cov ps rs p r,
     parameters cov = Some ps → ranges cov = Some rs →
     p ∈ ps → rs !! p = Some r → has_zero_divisor r →
     ∃ e, build_dask_arrays cov = Err e ∧
          (e = ZeroDivisionError ∨
           ∃ q, q ∈ ps ∧ rs !! q = None ∧ e = KeyError q)) ∧
  (∀ cov ps rs p r,
     keys_present cov ps rs → p ∈ ps → rs !! p = Some r →
     has_zero_divisor r →
     build_dask_arrays cov = Err ZeroDivisionError).
Proof.
  split_and!.
  - intros E t HE Ht. apply axis_tiles_nonzero_divisor.
    destruct t; simpl in *; lia.
  - apply positive_sizes_no_zero_division.
  - intros E. by apply axis_tiles_zero_divisor.
  - by apply axis_tiles_zero_divisor.
  - apply build_tileset_zero_divisor.
  - intros cov ps rs p r Hps Hrs Hin Hp Hz.
    unfold build_dask_arrays. rewrite Hps. simpl.
    by eapply params_loop_zero_divisor_fails.
  - intros cov ps rs p r (Hps & Hrs & Hall) Hin Hp Hz.
    unfold build_dask_arrays. rewrite Hps. simpl.
    by eapply params_loop_zero_divisor.
Qed.

(** *** The task graph of one tileset *)

Lemma lookup_graph_fold (param url : string) (names : list string)
    (coords : list (list Z)) (g : gmap (string * list Z) (task number))
    (p : string) (c : list Z) :
  foldl (λ dask_graph coord,
           <[(param, coord) := (get_tile, url, names, coord)]> dask_graph)
        g coords !! (p, c) =
    if decide (p = param ∧ c ∈ coords)
    then Some (get_tile, url, names, c) else g !! (p, c).
Proof.
  revert g. induction coords as [|coord coords IH]; intros g; simpl.
  { rewrite decide_False; [done|]. intros [_ ?%elem_of_nil]. done. }
  rewrite IH. destruct (decide (p = param ∧ c ∈ coords)) as [[-> Hc]|Hn].
  - rewrite decide_True; [done|]. split; [done|]. by right.
  - destruct (decide ((param, coord) = (p, c))) as [[= <- <-]|Hne].
    + rewrite lookup_insert_eq, decide_True; [done|]. split; [done|]. by left.
    + rewrite lookup_insert_ne by done.
      rewrite decide_False; [done|]. intros [-> [->|?]%elem_of_cons]; tauto.
Qed.

Lemma lookup_dask_graph_of (param url : string) (names : list string)
    (coords : list (list Z)) key v :
  dask_graph_of param url names coords !! key = Some v ↔
  ∃ coord, coord ∈ coords ∧ key = (param, coord) ∧
           v = (get_tile, url, names, coord).
Proof.
  destruct key as [p c]. unfold dask_graph_of. rewrite lookup_graph_fold.
  destruct (decide (p = param ∧ c ∈ coords)) as [[-> Hc]|Hn].
  - split; [intros [= <-]; eauto|]. by intros (coord & _ & [= <-] & ->).
  - rewrite lookup_empty. split; [done|].
    intros (coord & ? & [= -> ->] & _). tauto.
Qed.

Lemma dom_dask_graph_of (param url : string) (names : list string)
    (coords : list (list Z)) :
  dom (dask_graph_of param url names coords) =
    list_to_set ((λ coord, (param, coord)) <$> coords).
Proof.
  apply set_eq. intros key.
  rewrite elem_of_dom, elem_of_list_to_set, list_elem_of_fmap.
  unfold is_Some. setoid_rewrite lookup_dask_graph_of. naive_solver.
Qed.

Lemma size_dask_graph_of (param url : string) (names : list string)
    (coords : list (list Z)) :
  NoDup coords → size (dask_graph_of param url names coords) = length coords.
Proof.
  intros Hnd. rewrite <- size_dom, dom_dask_graph_of, size_list_to_set.
  - by rewrite length_fmap.
  - apply NoDup_fmap_2; [|done]. by intros c1 c2 [= ->].
Qed.

(** C2: whenever no axis has a zero divisor the tileset gets a task
    graph; it has as many entries as the product of the per-axis chunk
    counts, its keys are the parameter name followed by a coordinate
    from the cartesian product of the index ranges [0..len-1] taken in
    axis order, and the value under such a key is get_tile with the
    tileset's URL template, the parameter's axis names and that
    coordinate.  Otherwise the only outcome is ZeroDivisionError. *)
Theorem task_graph_of_tileset (param : string) (p_axis_names : list string)
    (p_shape : list Z) (p_tileset : tileset) :
  match build_tileset param p_axis_names p_shape p_tileset with
  | Ok (key, arr) =>
      let tile_coords := product (axis_coords <$> chunks arr) in
      axes_tile_sizes (zip p_shape (tileShape p_tileset)) = Ok (chunks arr) ∧
      size (dask arr) = prod_nat (length <$> chunks arr) ∧
      length tile_coords = prod_nat (length <$> chunks arr) ∧
      NoDup tile_coords ∧
      (∀ coord, coord ∈ tile_coords ↔
         Forall2 (λ c tiles, 0 ≤ c < Z.of_nat (length tiles))
                 coord (chunks arr)) ∧
      (∀ k, k ∈ dom (dask arr) ↔
         ∃ coord, coord ∈ tile_coords ∧ k = (param, coord)) ∧
      (∀ k v, dask arr !! k = Some v ↔
         ∃ coord, coord ∈ tile_coords ∧ k = (param, coord) ∧
           v = (get_tile, urlTemplate p_tileset, p_axis_names, coord))
  | Err e =>
      e = ZeroDivisionError ∧
      Exists zero_divisor (zip p_shape (tileShape p_tileset))
  end.
Proof.
  destruct (build_tileset _ _ _ _) as [[key arr]|e] eqn:Hb;
    [|by apply build_tileset_Err in Hb].
  unfold build_tileset in Hb.
  destruct (axes_tile_sizes _) as [sizes|] eqn:Hs; simpl in Hb; [|done].
  injection Hb as <- <-. simpl.
  split_and!.
  - done.
  - rewrite size_dask_graph_of by apply NoDup_tile_coords.
    apply length_tile_coords.
  - apply length_tile_coords.
  - apply NoDup_tile_coords.
  - apply elem_of_tile_coords.
  - intros k. rewrite dom_dask_graph_of, elem_of_list_to_set, list_elem_of_fmap.
    naive_solver.
  - apply lookup_dask_graph_of.
Qed.

(** *** The returned mapping *)

Lemma build_job_key job entry :
  build_job job = Ok entry → entry.1 = job_key job.
Proof.
  unfold build_job, build_tileset.
  destruct (axes_tile_sizes _); simpl; [|done]. by intros [= <-].
Qed.

Lemma jobs_of_cons rs p ps :
  jobs_of rs (p :: ps) =
    match rs !! p with
    | Some r => (λ ts, (p, r, ts)) <$> tileSets r
    | None => []
    end ++ jobs_of rs ps.
Proof. unfold jobs_of. by rewrite bind_cons. Qed.

Lemma tilesets_loop_Ok param r tss acc m :
  tilesets_loop param (axisNames r) (shape r) tss acc = Ok m →
  ∃ entries,
    Forall2 (λ ts entry, build_job (param, r, ts) = Ok entry) tss entries ∧
    m = store_all acc entries.
Proof.
  revert acc. induction tss as [|ts tss IH]; intros acc; simpl.
  { intros [= <-]. by exists []. }
  destruct (build_tileset _ _ _ ts) as [entry|] eqn:Hb; simpl; [|done].
  intros (entries & Hall & ->)%IH.
  exists (entry :: entries). split; [|done]. by constructor.
Qed.

Lemma params_loop_Ok cov ps acc m :
  params_loop cov ps acc = Ok m →
  ∃ entries,
    Forall2 (λ job entry, build_job job = Ok entry)
            (jobs_of (default ∅ (ranges cov)) ps) entries ∧
    m = store_all acc entries.
Proof.
  revert acc. induction ps as [|p ps IH]; intros acc.
  { intros [= <-]. by exists []. }
  rewrite jobs_of_cons. simpl.
  destruct (ranges cov) as [rs|] eqn:Hrs; simpl; [|done].
  destruct (rs !! p) as [r|] eqn:Hp; simpl; [|done].
  destruct (tilesets_loop _ _ _ _ _) as [acc'|] eqn:Hl; simpl; [|done].
  intros (entries & Hall & ->)%IH.
  apply tilesets_loop_Ok in Hl as (entries_p & Hall_p & ->).
  exists (entries_p ++ entries). split; [|by rewrite store_all_app].
  apply Forall2_app; [|done]. by apply Forall2_fmap_l.
Qed.

Lemma build_dask_arrays_Ok cov m :
  build_dask_arrays cov = Ok m →
  ∃ entries,
    Forall2 (λ job entry, build_job job = Ok entry) (jobs cov) entries ∧
    m = store_all ∅ entries.
Proof.
  unfold build_dask_arrays, jobs.
  destruct (parameters cov) as [ps|]; simpl; [|done].
  intros (entries & Hall & ->)%params_loop_Ok.
  destruct (ranges cov) as [rs|]; simpl in *; [by exists entries|].
  exists entries. split; [|done].
  replace (jobs_of ∅ ps) with (@nil (string * range_descriptor * tileset))
    in Hall; [done|].
  clear. induction ps as [|p ps IH]; [done|].
  by rewrite jobs_of_cons, lookup_empty.
Qed.


(** get_dask_arrays fetches and decodes the document, then builds. *)
Lemma get_dask_arrays_decoded location resp cov :
  requests_get location = Ok resp →
  json_loads_coverage (content resp) = Ok cov →
  get_dask_arrays requests_get json_loads_coverage json_loads_tile np
    location = build_dask_arrays cov.
Proof.
  intros Hget Hjson. unfold get_dask_arrays, get_data.
  rewrite Hget. simpl. by rewrite Hjson.
Qed.

(** *** Schema errors *)

Lemma axes_tile_sizes_length pairs sizes :
  axes_tile_sizes pairs = Ok sizes → length sizes = length pairs.
Proof.
  revert sizes. induction pairs as [|[E t] pairs IH]; intros sizes; simpl.
  { by intros [= <-]. }
  destruct (axis_tiles E t); simpl; [|done].
  destruct (axes_tile_sizes pairs) as [more|]; simpl; [|done].
  intros [= <-]. simpl. by rewrite (IH more).
Qed.

Lemma build_tileset_positive param names p_shape ts :
  Forall (λ E, 0 < E) p_shape → Forall positive_tile_size (tileShape ts) →
  ∃ arr,
    build_tileset param names p_shape ts =
      Ok (da_key param (tileShape ts) names, arr) ∧
    length (chunks arr) = (length p_shape `min` length (tileShape ts))%nat.
Proof.
  intros Hs Ht. unfold build_tileset.
  destruct (axes_tile_sizes _) as [sizes|e] eqn:Hsizes; simpl.
  - eexists. split; [done|]. simpl.
    by rewrite (axes_tile_sizes_length _ _ Hsizes), length_zip.
  - apply axes_tile_sizes_Err in Hsizes as [_ Hz].
    by apply positive_pairs_no_zero_divisor in Hz.
Qed.

Lemma params_loop_missing_range cov rs ps acc p :
  ranges cov = Some rs → p ∈ ps → rs !! p = None →
  ∃ e, params_loop cov ps acc = Err e.
Proof.
  intros Hrs Hin Hp. revert acc.
  induction ps as [|q ps IH]; intros acc; [by apply elem_of_nil in Hin|].
  simpl. rewrite Hrs. simpl.
  destruct (rs !! q) as [r|] eqn:Hq; simpl; [|by eexists].
  destruct (tilesets_loop _ _ _ _ _) as [acc'|e]; simpl; [|by eexists].
  apply elem_of_cons in Hin as [->|Hin]; [congruence|]. by apply IH.
Qed.

Lemma params_loop_missing_range_error cov rs ps acc p :
  ranges cov = Some rs → p ∈ ps → rs !! p = None →
  ∃ e, params_loop cov ps acc = Err e ∧
       (e = ZeroDivisionError ∨
        ∃ q, q ∈ ps ∧ rs !! q = None ∧ e = KeyError q).
Proof.
  intros Hrs Hin Hp.
  destruct (params_loop_missing_range cov rs ps acc p Hrs Hin Hp) as [e He].
  exists e. split; [done|].
  apply params_loop_Err in He as [(_ & ? & _)|[He|He]]; [congruence|..].
  - destruct He as (rs' & q & Hrs' & Hq & Hnone & ->).
    assert (rs' = rs) as -> by congruence. right. by exists q.
  - destruct He as (_ & _ & _ & _ & _ & _ & _ & ->). by left.
Qed.

Lemma params_loop_first_missing cov rs before p after acc :
  ranges cov = Some rs → rs !! p = None →
  Forall (λ q, ∃ r, rs !! q = Some r ∧ ¬ has_zero_divisor r) before →
  params_loop cov (before ++ p :: after) acc = Err (KeyError p).
Proof.
  intros Hrs Hp Hbefore. revert acc.
  induction Hbefore as [|q before (r & Hq & Hnz) _ IH]; intros acc; simpl.
  { rewrite Hrs. simpl. by rewrite Hp. }
  rewrite Hrs. simpl. rewrite Hq. simpl.
  destruct (tilesets_loop _ _ _ _ _) as [acc'|e] eqn:Hl; simpl; [apply IH|].
  by apply tilesets_loop_Err in Hl as [_ ?].
Qed.

(** C7 (as amended): a missing "parameters" key, and a missing "ranges"
    key when at least one parameter is listed, make the build fail with
    the KeyError of that key.  A listed parameter without a range makes
    it fail too, with no mapping returned: with the KeyError of that
    parameter when every parameter listed before it has a range free of
    zero divisors, and in any case with the KeyError of a listed
    parameter lacking a range or with a ZeroDivisionError.  With no
    parameter listed, "ranges" is never looked up.  Disagreeing lengths
    are not detected: shape and tileShape are paired up to the shorter
    of the two, and with positive sizes a tileset is built whatever the
    lengths, and so is the whole mapping when the keys are present. *)
Theorem schema_errors_at_build_time :
  (∀ cov, parameters cov = None →
     build_dask_arrays cov = Err (KeyError "parameters")) ∧
  (∀ cov p ps, parameters cov = Some (p :: ps) → ranges cov = None →
     build_dask_arrays cov = Err (KeyError "ranges")) ∧
  (∀ cov ps rs p, parameters cov = Some ps → ranges cov = Some rs →
     p ∈ ps → rs !! p = None →
     ∃ e, build_dask_arrays cov = Err e ∧
          (e = ZeroDivisionError ∨
           ∃ q, q ∈ ps ∧ rs !! q = None ∧ e = KeyError q)) ∧
  (∀ cov before p after rs,
     parameters cov = Some (before ++ p :: after) → ranges cov = Some rs →
     rs !! p = None →
     Forall (λ q, ∃ r, rs !! q = Some r ∧ ¬ has_zero_divisor r) before →
     build_dask_arrays cov = Err (KeyError p)) ∧
  (∀ cov, parameters cov = Some [] → build_dask_arrays cov = Ok ∅) ∧
  (∀ param names p_shape ts,
     Forall (λ E, 0 < E) p_shape → Forall positive_tile_size (tileShape ts) →
     ∃ arr,
       build_tileset param names p_shape ts =
         Ok (da_key param (tileShape ts) names, arr) ∧
       length (chunks arr) =
         (length p_shape `min` length (tileShape ts))%nat) ∧
  (∀ cov ps rs, keys_present cov ps rs → positive_sizes cov →
     is_Ok (build_dask_arrays cov)).
Proof.
  split_and!.
  - intros cov Hps. unfold build_dask_arrays. by rewrite Hps.
  - intros cov p ps Hps Hrs. unfold build_dask_arrays. rewrite Hps. simpl.
    by rewrite Hrs.
  - intros cov ps rs p Hps Hrs Hin Hp. unfold build_dask_arrays.
    rewrite Hps. simpl. by eapply params_loop_missing_range_error.
  - intros cov before p after rs Hps Hrs Hp Hbefore.
    unfold build_dask_arrays. rewrite Hps. simpl.
    by apply (params_loop_first_missing _ rs).
  - intros cov Hps. unfold build_dask_arrays. by rewrite Hps.
  - apply build_tileset_positive.
  - intros cov ps rs (Hps & Hrs & Hall) Hpos.
    destruct (build_dask_arrays cov) as [m|e] eqn:Hb; [by exists m|].
    exfalso. pose proof Hb as Hb'. unfold build_dask_arrays in Hb.
    rewrite Hps in Hb. simpl in Hb.
    apply params_loop_Err in Hb as [(_ & ? & _)|[Hb|Hb]]; [congruence|..].
    + destruct Hb as (rs' & p & Hrs' & Hin & Hnone & _).
      assert (rs' = rs) as -> by congruence.
      rewrite Forall_forall in Hall. destruct (Hall p Hin). congruence.
    + destruct Hb as (_ & _ & _ & _ & _ & _ & _ & ->).
      by eapply positive_sizes_no_zero_division.
Qed.

(** *** Transport errors *)

(** C8 (as amended): get_data returns exactly what requests.get gives:
    an exception raised by the request (connection or DNS failure)
    reaches the caller unchanged, also through get_tile, while a
    response of any status code, success or not, is not an error: its
    body is returned. *)
Theorem get_data_passes_transport_outcome (location : string) :
  match requests_get location with
  | Err e => get_data location = Err e
  | Ok resp => get_data location = Ok (content resp)
  end ∧
  (∀ url_template axis_names tile_indices e,
     requests_get (substitute url_template (zip axis_names tile_indices))
       = Err e →
     get_tile url_template axis_names tile_indices = Err e).
Proof.
  split.
  - unfold get_data. by destruct (requests_get location).
  - intros url_template axis_names tile_indices e He.
    unfold get_tile, get_data. by rewrite He.
Qed.

(** *** The tile URL *)

Lemma substitute_foldl (url_template : string) (pairs : list (string * Z)) :
  substitute url_template pairs =
    foldl (λ url pair, str_replace url ("{" +:+ pair.1 +:+ "}") (str pair.2))
          url_template pairs.
Proof.
  revert url_template.
  induction pairs as [|[axis i] pairs IH]; intros url; [done|]. apply IH.
Qed.

Lemma str_replace_absent (s old new : string) :
  old ≠ "" → contains old s = false → str_replace s old new = s.
Proof.
  intros Hold Hnone. eapply replaced_all_absent; [done|].
  by apply str_replace_replaced_all.
Qed.

Lemma substitute_absent (url_template : string) (pairs : list (string * Z)) :
  Forall (λ pair, contains ("{" +:+ pair.1 +:+ "}") url_template = false)
         pairs →
  substitute url_template pairs = url_template.
Proof.
  induction 1 as [|[axis i] pairs Hnone _ IH]; [done|]. simpl in *.
  by rewrite str_replace_absent.
Qed.

(** C4: the URL that get_tile fetches is obtained from the template by
    taking the (axis name, index) pairs in order and replacing, for each,
    every occurrence of "{axis name}" by the decimal string of the
    index; text outside these occurrences is kept, so a template without
    the placeholders of the listed axes is fetched as it is; and
    "http://h/{x}/{y}" with axes x, y and indices 2, 5 gives
    "http://h/2/5". *)
Theorem tile_url_by_placeholder_substitution (url_template : string)
    (axis_names : list string) (tile_indices : list Z) :
  let pairs := zip axis_names tile_indices in
  let url := substitute url_template pairs in
  url = foldl (λ url pair,
                 str_replace url ("{" +:+ pair.1 +:+ "}") (str pair.2))
              url_template pairs ∧
  (∀ (u axis : string) (i : Z),
     replaced_all ("{" +:+ axis +:+ "}") (str i) u
       (str_replace u ("{" +:+ axis +:+ "}") (str i))) ∧
  (∀ (u axis : string) (i : Z),
     contains ("{" +:+ axis +:+ "}") u = false →
     str_replace u ("{" +:+ axis +:+ "}") (str i) = u) ∧
  (Forall (λ pair, contains ("{" +:+ pair.1 +:+ "}") url_template = false)
          pairs →
   url = url_template) ∧
  get_tile url_template axis_names tile_indices =
    (resp ← requests_get url;
     tile_data ← json_loads_tile (content resp);
     reshape (np_array (values tile_data)) (tile_shape_of tile_data)) ∧
  substitute "http://h/{x}/{y}" (zip ["x"; "y"] [2; 5]) = "http://h/2/5".
Proof.
  intros pairs url. split_and!.
  - apply substitute_foldl.
  - intros u axis i. by apply str_replace_replaced_all.
  - intros u axis i. by apply str_replace_absent.
  - apply substitute_absent.
  - unfold get_tile, get_data. fold pairs. fold url.
    by destruct (requests_get url).
  - reflexivity.
Qed.

(** *** The tile array *)

(** C5 (as amended): once the tile document is decoded, get_tile returns
    the reshape of the array np.array makes of its flat value list.  For
    a shape of positive entries, no more of them than numpy has
    dimensions, and values that fit a numpy array (the bytes of one
    element, and of all of them, within intp), the reshape raises
    ValueError exactly when the product of the shape differs from the
    number of values; otherwise it is the array of that shape over the
    values, as np.array converts them, in row-major order: the element
    under a multi-index is the converted value at the offset in which
    the first axis varies slowest.  Four values a, b, c, d with shape
    2 x 2 give the rows (a, b) and (c, d). *)
Theorem tile_reshaped_row_major (vals : list number) (newshape : list Z) :
  Forall (λ d, 0 < d) newshape →
  (length newshape ≤ npy_maxdims np)%nat →
  0 < np_itemsize np (np_cast np vals <$> vals) ≤ npy_max_intp np →
  np_itemsize np (np_cast np vals <$> vals) * Z.of_nat (length vals)
    ≤ npy_max_intp np →
  (∀ url_template axis_names tile_indices resp,
     requests_get (substitute url_template (zip axis_names tile_indices))
       = Ok resp →
     json_loads_tile (content resp) = Ok (TileDocument vals newshape) →
     get_tile url_template axis_names tile_indices =
       reshape (np_array vals) newshape) ∧
  (reshape (np_array vals) newshape = Err ValueError ↔
   prod_list newshape ≠ Z.of_nat (length vals)) ∧
  (prod_list newshape = Z.of_nat (length vals) →
   let arr := NdArray (Z.to_nat <$> newshape) (np_cast np vals <$> vals) in
   reshape (np_array vals) newshape = Ok arr ∧
   ∃ t, tolist arr = Some t ∧
     ∀ idx, Forall2 (λ i d, (i < d)%nat) idx (nd_shape arr) →
       ∃ v, vals !! ravel (nd_shape arr) idx = Some v ∧
            nested_get t idx = Some (Item (np_cast np vals v))) ∧
  (∀ a b c d : number,
     let cast := np_cast np [a; b; c; d] in
     tolist (NdArray (Z.to_nat <$> [2; 2]) (cast <$> [a; b; c; d])) =
       Some (Rows [Rows [Item (cast a); Item (cast b)];
                   Rows [Item (cast c); Item (cast d)]])).
Proof.
  intros Hpos Hdims Hitem Hfit.
  pose proof (reshape_positive_shape np vals newshape Hpos Hdims Hitem Hfit)
    as Hreshape.
  split_and!.
  - intros url_template axis_names tile_indices resp Hget Hjson.
    unfold get_tile, get_data. rewrite Hget. simpl. by rewrite Hjson.
  - rewrite Hreshape. destruct (decide _); split; (done || lia).
  - intros Hprod arr. rewrite Hreshape, decide_True by done.
    split; [done|].
    destruct (nest_row_major (Z.to_nat <$> newshape) (np_cast np vals <$> vals))
      as (t & Ht & Hidx).
    { rewrite length_fmap. apply Nat2Z.inj.
      rewrite prod_nat_to_nat; [done|].
      eapply Forall_impl; [exact Hpos|]. simpl. lia. }
    exists t. split; [done|]. intros idx Hin.
    destruct (Hidx idx Hin) as (w & Hw & Hitem').
    apply list_lookup_fmap_Some in Hw as (v & -> & Hv). by exists v.
  - reflexivity.
Qed.

(** *** Whole tilesets *)

(** X1: when every paired axis has a non-negative extent and a positive
    divisor, the tileset is built, every chunk size is positive and the
    chunk sizes along each axis add up to its extent: the array has the
    declared shape (cut to the length of tileShape). *)
Theorem chunks_cover_declared_shape (param : string)
    (p_axis_names : list string) (p_shape : list Z) (p_tileset : tileset) :
  Forall covered_pair (zip p_shape (tileShape p_tileset)) →
  ∃ arr,
    build_tileset param p_axis_names p_shape p_tileset =
      Ok (da_key param (tileShape p_tileset) p_axis_names, arr) ∧
    name arr = param ∧
    Forall (Forall (λ c, 0 < c)) (chunks arr) ∧
    sum_list <$> chunks arr = take (length (tileShape p_tileset)) p_shape ∧
    (length p_shape = length (tileShape p_tileset) →
     sum_list <$> chunks arr = p_shape).
Proof.
  intros (sizes & Hs & Hsum & Hpos & _)%axes_tile_sizes_partition.
  unfold build_tileset. rewrite Hs. simpl. eexists. split; [done|]. simpl.
  rewrite fst_zip_take in Hsum. split_and!; try done.
  intros Hlen. by rewrite Hsum, <- Hlen, firstn_all.
Qed.

(** X2: under the same condition the task graph has one entry per
    combination of tiles: the product over the paired axes of
    ceil(extent / tile size), an unsplit axis counting once. *)
Theorem task_count_of_tileset (param : string)
    (p_axis_names : list string) (p_shape : list Z) (p_tileset : tileset) :
  Forall covered_pair (zip p_shape (tileShape p_tileset)) →
  ∃ arr,
    build_tileset param p_axis_names p_shape p_tileset =
      Ok (da_key param (tileShape p_tileset) p_axis_names, arr) ∧
    size (dask arr) =
      prod_nat (tiles_along <$> zip p_shape (tileShape p_tileset)).
Proof.
  intros (sizes & Hs & _ & _ & Hlen)%axes_tile_sizes_partition.
  unfold build_tileset. rewrite Hs. simpl. eexists. split; [done|]. simpl.
  rewrite size_dask_graph_of by apply NoDup_tile_coords.
  by rewrite length_tile_coords, Hlen.
Qed.

(** X3: a tileset without any integer tileShape entry, over non-zero
    extents, gives the key "<parameter>-untiled", one chunk per paired
    axis holding the whole extent, and a task graph of exactly one
    entry, at the all-zero coordinate. *)
Theorem untiled_tileset_single_task (param : string)
    (p_axis_names : list string) (p_shape : list Z) (p_tileset : tileset) :
  Forall (λ t, t = None) (tileShape p_tileset) →
  Forall (λ E, E ≠ 0) p_shape →
  let whole := take (length (tileShape p_tileset)) p_shape in
  let origin := replicate (length whole) 0 in
  build_tileset param p_axis_names p_shape p_tileset =
    Ok (param +:+ "-untiled",
        Array {[ (param, origin) :=
                   (get_tile, urlTemplate p_tileset, p_axis_names, origin) ]}
              param ((λ E, [E]) <$> whole)).
Proof.
  intros Hnone Hshape whole origin. unfold build_tileset.
  rewrite axes_tile_sizes_unsplit by done. simpl.
  rewrite da_key_unsplit by done. fold whole.
  rewrite product_singletons. fold origin. unfold dask_graph_of. simpl.
  by rewrite insert_empty.
Qed.

(** X4: a negative tile size, or an extent of zero under a non-zero tile
    size, is not rejected: provided no divisor is zero, the tileset is
    built with an axis that has no chunk, and its task graph is empty. *)
Theorem chunkless_axis_empty_graph (param : string)
    (p_axis_names : list string) (p_shape : list Z) (p_tileset : tileset) :
  ¬ Exists zero_divisor (zip p_shape (tileShape p_tileset)) →
  Exists chunkless_pair (zip p_shape (tileShape p_tileset)) →
  ∃ arr,
    build_tileset param p_axis_names p_shape p_tileset =
      Ok (da_key param (tileShape p_tileset) p_axis_names, arr) ∧
    [] ∈ chunks arr ∧ dask arr = ∅.
Proof.
  intros Hnz Hless. unfold build_tileset.
  destruct (axes_tile_sizes _) as [sizes|e] eqn:Hs; simpl;
    [|by apply axes_tile_sizes_Err in Hs as [_ ?]].
  eexists. split; [done|]. simpl.
  assert ([] ∈ sizes) as Hin.
  { apply axes_tile_sizes_Forall2 in Hs.
    apply Exists_exists in Hless as ([E t] & Hpair & T & Ht & Hcase).
    simpl in Ht, Hcase. subst t.
    apply list_elem_of_lookup in Hpair as [i Hi].
    destruct (Forall2_lookup_l _ _ _ _ _ Hs Hi) as (tiles & Htiles & Hax).
    simpl in Hax. rewrite axis_tiles_chunkless in Hax by done.
    injection Hax as <-. by eapply list_elem_of_lookup_2. }
  split; [done|]. rewrite product_empty_pool; [done|].
  apply list_elem_of_fmap. by exists [].
Qed.

(** *** The whole mapping *)

Lemma entries_keys jobs_list (entries : list (string * dask_array number)) :
  Forall2 (λ job entry, build_job job = Ok entry) jobs_list entries →
  entries.*1 = job_key <$> jobs_list.
Proof.
  induction 1 as [|job entry jobs_list entries Hb _ IH]; [done|].
  rewrite !fmap_cons, IH. f_equal. by eapply build_job_key.
Qed.

(** X5: when the build succeeds, the keys of the returned mapping are
    exactly the result keys of the (parameter, tileset) pairs of the
    listed parameters, so there are at most as many arrays as pairs; a
    document without such a pair gives the empty mapping. *)
Theorem returned_mapping_keys (cov : coverage)
    (m : gmap string (dask_array number)) :
  build_dask_arrays cov = Ok m →
  dom m = list_to_set (job_key <$> jobs cov) ∧
  (size m ≤ length (jobs cov))%nat ∧
  (jobs cov = [] → m = ∅).
Proof.
  intros (entries & Hall & ->)%build_dask_arrays_Ok.
  pose proof (entries_keys _ _ Hall) as Hkeys.
  assert (dom (store_all ∅ entries) =
          list_to_set (C:=gset string) (job_key <$> jobs cov)) as Hdom.
  { rewrite dom_store_all, dom_empty_L, Hkeys. set_solver. }
  split_and!; [done| |].
  - rewrite <- size_dom, Hdom.
    etrans; [apply size_list_to_set_le|]. by rewrite length_fmap.
  - intros Hnil. rewrite Hnil in Hall.
    by apply Forall2_nil_inv_l in Hall as ->.
Qed.

(** X6: when the result keys of the pairs are all different, the
    mapping holds one array for each (parameter, tileset) pair, each
    under its own key. *)
Theorem one_array_per_pair (cov : coverage)
    (m : gmap string (dask_array number)) :
  build_dask_arrays cov = Ok m →
  NoDup (job_key <$> jobs cov) →
  size m = length (jobs cov) ∧
  ∀ job, job ∈ jobs cov →
    ∃ arr, build_job job = Ok (job_key job, arr) ∧
           m !! job_key job = Some arr.
Proof.
  intros (entries & Hall & ->)%build_dask_arrays_Ok Hnd.
  pose proof (entries_keys _ _ Hall) as Hkeys. split.
  - rewrite <- size_dom, dom_store_all, dom_empty_L, Hkeys.
    rewrite (left_id_L ∅ (∪)), size_list_to_set by done.
    by rewrite length_fmap.
  - intros job (i & Hi)%list_elem_of_lookup.
    destruct (Forall2_lookup_l _ _ _ _ _ Hall Hi) as ([k arr] & Hentry & Hb).
    pose proof (build_job_key _ _ Hb) as Hk. simpl in Hk. subst k.
    exists arr. split; [done|].
    apply lookup_store_all_NoDup; [by rewrite Hkeys|].
    by eapply list_elem_of_lookup_2.
Qed.

(** X7: every array of the returned mapping was built from a tileset
    of a listed parameter and is stored under that pair's result key;
    its name is the parameter, and every key of its task graph is that
    name followed by one index per chunked axis, each within the number
    of chunks of its axis, with get_tile on the tileset's URL template,
    the axis names and these indices as its task. *)
Theorem returned_arrays_well_formed (cov : coverage)
    (m : gmap string (dask_array number)) (k : string)
    (arr : dask_array number) :
  build_dask_arrays cov = Ok m → m !! k = Some arr →
  ∃ ps rs p r ts,
    parameters cov = Some ps ∧ ranges cov = Some rs ∧
    p ∈ ps ∧ rs !! p = Some r ∧ ts ∈ tileSets r ∧
    k = da_key p (tileShape ts) (axisNames r) ∧
    name arr = p ∧
    length (chunks arr) =
      (length (shape r) `min` length (tileShape ts))%nat ∧
    ∀ key t, dask arr !! key = Some t →
      key.1 = name arr ∧
      Forall2 (λ c tiles, 0 ≤ c < Z.of_nat (length tiles))
              key.2 (chunks arr) ∧
      t = (get_tile, urlTemplate ts, axisNames r, key.2).
Proof.
  intros Hb Hk. pose proof Hb as (entries & Hall & ->)%build_dask_arrays_Ok.
  apply lookup_store_all_Some in Hk as [Hk|Hin]; [by rewrite lookup_empty in Hk|].
  apply list_elem_of_lookup in Hin as [i Hi].
  destruct (Forall2_lookup_r _ _ _ _ _ Hall Hi) as ([[p r] ts] & Hjob & Hbj).
  apply list_elem_of_lookup_2 in Hjob. unfold jobs in Hjob.
  destruct (parameters cov) as [ps|] eqn:Hps; [|by apply elem_of_nil in Hjob].
  destruct (ranges cov) as [rs|] eqn:Hrs; [|by apply elem_of_nil in Hjob].
  apply elem_of_jobs_of in Hjob as (Hp & Hr & Hts). simpl in Hp, Hr, Hts.
  exists ps, rs, p, r, ts. split_and!; try done.
  - by apply build_job_key in Hbj.
  - unfold build_job, build_tileset in Hbj. simpl in Hbj.
    destruct (axes_tile_sizes _); simpl in Hbj; [|done]. by injection Hbj as _ <-.
  - unfold build_job, build_tileset in Hbj. simpl in Hbj.
    destruct (axes_tile_sizes _) as [sizes|] eqn:Hs; simpl in Hbj; [|done].
    injection Hbj as _ <-. simpl.
    by rewrite (axes_tile_sizes_length _ _ Hs), length_zip.
  - intros key t Ht.
    unfold build_job, build_tileset in Hbj. simpl in Hbj.
    destruct (axes_tile_sizes _) as [sizes|] eqn:Hs; simpl in Hbj; [|done].
    injection Hbj as _ <-. simpl in *.
    apply lookup_dask_graph_of in Ht as (coord & Hcoord & -> & ->).
    simpl. split_and!; [done| |done]. by apply elem_of_tile_coords.
Qed.

Lemma params_loop_ext cov1 cov2 rs1 rs2 ps acc :
  ranges cov1 = Some rs1 → ranges cov2 = Some rs2 →
  (∀ p, p ∈ ps → rs1 !! p = rs2 !! p) →
  params_loop cov1 ps acc = params_loop cov2 ps acc.
Proof.
  intros Hrs1 Hrs2. revert acc.
  induction ps as [|p ps IH]; intros acc Hagree; [done|].
  simpl. rewrite Hrs1, Hrs2. simpl.
  rewrite (Hagree p) by (by left).
  destruct (rs2 !! p) as [r|]; simpl; [|done].
  destruct (tilesets_loop _ _ _ _ _) as [acc'|]; simpl; [|done].
  apply IH. intros q Hq. apply Hagree. by right.
Qed.

(** X9: only the ranges of the listed parameters are read: two
    documents listing the same parameters, whose "ranges" agree on
    them, build the same mapping or fail alike, whatever other entries
    "ranges" holds. *)
Theorem only_listed_parameters_read (ps : list string)
    (rs1 rs2 : gmap string range_descriptor) :
  (∀ p, p ∈ ps → rs1 !! p = rs2 !! p) →
  build_dask_arrays (Coverage (Some ps) (Some rs1)) =
  build_dask_arrays (Coverage (Some ps) (Some rs2)).
Proof.
  intros Hagree. unfold build_dask_arrays. simpl.
  by apply (params_loop_ext _ _ rs1 rs2).
Qed.

(** X12: whenever get_tile returns an array, the document was fetched
    at the substituted URL and decoded; the array holds the document's
    values in order, each as np.array converts it to the common dtype;
    it has as many dimensions as the declared shape, the product of its
    dimensions is the number of values (also when a dimension was
    inferred), and its nested view is defined and row-major. *)
Theorem returned_tile_well_formed (url_template : string)
    (axis_names : list string) (tile_indices : list Z)
    (arr : ndarray number) :
  get_tile url_template axis_names tile_indices = Ok arr →
  ∃ resp tile_data,
    requests_get (substitute url_template (zip axis_names tile_indices))
      = Ok resp ∧
    json_loads_tile (content resp) = Ok tile_data ∧
    nd_data arr =
      np_cast np (values tile_data) <$> values tile_data ∧
    length (nd_shape arr) = length (tile_shape_of tile_data) ∧
    prod_nat (nd_shape arr) = length (values tile_data) ∧
    ∃ t, tolist arr = Some t ∧
      ∀ idx, Forall2 (λ i d, (i < d)%nat) idx (nd_shape arr) →
        ∃ v, values tile_data !! ravel (nd_shape arr) idx = Some v ∧
             nested_get t idx =
               Some (Item (np_cast np (values tile_data) v)).
Proof.
  unfold get_tile, get_data.
  destruct (requests_get _) as [resp|] eqn:Hget; simpl; [|done].
  destruct (json_loads_tile _) as [tile_data|] eqn:Hjson; simpl; [|done].
  intros (Hdata & Hlen & Hsize)%reshape_np_array_Ok.
  exists resp, tile_data. split_and!; try done.
  destruct (nest_row_major (nd_shape arr) (nd_data arr)) as (t & Ht & Hidx).
  { by rewrite Hdata, length_fmap. }
  exists t. split; [done|]. intros idx Hin.
  destruct (Hidx idx Hin) as (w & Hw & Hitem). rewrite Hdata in Hw.
  apply list_lookup_fmap_Some in Hw as (v & -> & Hv). by exists v.
Qed.

End Builder.

(** *** Nothing but the document is fetched at build time *)

Section Laziness.
Context {number : Type}.
Variables rg1 rg2 : string → result response.
Variable json_loads_coverage : list Byte.byte → result coverage.
Variables jt1 jt2 : list Byte.byte → result (tile_document number).
Variables np1 np2 : numpy number.

Lemma graph_fold_args (rg : string → result response)
    (jt : list Byte.byte → result (tile_document number))
    (np : numpy number)
    (param url : string) (names : list string) (coords : list (list Z))
    (acc : gmap (string * list Z) (task number)) :
  task_args <$>
    foldl (λ g coord,
             <[(param, coord) := (get_tile rg jt np, url, names, coord)]> g)
          acc coords =
  foldl (λ g coord, <[(param, coord) := (url, names, coord)]> g)
        (task_args <$> acc) coords.
Proof.
  revert acc. induction coords as [|coord coords IH]; intros acc; [done|].
  simpl. rewrite IH. by rewrite fmap_insert.
Qed.

Lemma build_tileset_metadata param names p_shape ts :
  prod_map id array_metadata <$> build_tileset rg1 jt1 np1 param names p_shape ts
  = prod_map id array_metadata <$> build_tileset rg2 jt2 np2 param names p_shape ts.
Proof.
  unfold build_tileset. destruct (axes_tile_sizes _) as [sizes|]; [|done].
  simpl. unfold prod_map, array_metadata, dask_graph_of. simpl.
  by rewrite !graph_fold_args.
Qed.

Lemma tilesets_loop_metadata param names p_shape tss
    (acc1 acc2 : gmap string (dask_array number)) :
  mapping_metadata acc1 = mapping_metadata acc2 →
  mapping_metadata <$> tilesets_loop rg1 jt1 np1 param names p_shape tss acc1 =
  mapping_metadata <$> tilesets_loop rg2 jt2 np2 param names p_shape tss acc2.
Proof.
  revert acc1 acc2. induction tss as [|ts tss IH]; intros acc1 acc2 Hacc.
  { simpl. by rewrite Hacc. }
  simpl. pose proof (build_tileset_metadata param names p_shape ts) as Hb.
  destruct (build_tileset rg1 _ _ _ _ _ _) as [[k1 a1]|e1],
           (build_tileset rg2 _ _ _ _ _ _) as [[k2 a2]|e2];
    simpl in Hb; try done; try (simpl; congruence).
  assert (k1 = k2 ∧ array_metadata a1 = array_metadata a2) as [-> Hmeta].
  { unfold prod_map in Hb. simpl in Hb. injection Hb. intros.
    split; [done|]. unfold array_metadata. congruence. }
  simpl. apply IH.
  unfold mapping_metadata in *. by rewrite !fmap_insert, Hacc, Hmeta.
Qed.

Lemma params_loop_metadata cov ps
    (acc1 acc2 : gmap string (dask_array number)) :
  mapping_metadata acc1 = mapping_metadata acc2 →
  mapping_metadata <$> params_loop rg1 jt1 np1 cov ps acc1 =
  mapping_metadata <$> params_loop rg2 jt2 np2 cov ps acc2.
Proof.
  revert acc1 acc2. induction ps as [|p ps IH]; intros acc1 acc2 Hacc.
  { simpl. by rewrite Hacc. }
  simpl. destruct (ranges cov) as [rs|]; simpl; [|done].
  destruct (rs !! p) as [r|]; simpl; [|done].
  pose proof (tilesets_loop_metadata p (axisNames r) (shape r) (tileSets r)
                acc1 acc2 Hacc) as Hl.
  destruct (tilesets_loop rg1 _ _ _ _ _ _ _) as [m1|e1],
           (tilesets_loop rg2 _ _ _ _ _ _ _) as [m2|e2];
    simpl in Hl; try done; try (simpl; congruence).
  injection Hl as Hl. simpl. by apply IH.
Qed.

(** X8: building the arrays fetches the document and nothing else: two
    HTTP clients that answer alike at the document's location (and any
    two tile decoders and numpy builds) lead to the same outcome, and on success to
    mappings with the same keys, array names, chunk sizes and task
    arguments; they differ only in the get_tile stored in the tasks. *)
Theorem build_fetches_only_the_document (location : string) :
  rg1 location = rg2 location →
  mapping_metadata <$> get_dask_arrays rg1 json_loads_coverage jt1 np1 location =
  mapping_metadata <$> get_dask_arrays rg2 json_loads_coverage jt2 np2 location.
Proof.
  intros Hloc. unfold get_dask_arrays, get_data. rewrite Hloc.
  destruct (rg2 location) as [resp|]; simpl; [|done].
  destruct (json_loads_coverage _) as [cov|]; simpl; [|done].
  unfold build_dask_arrays.
  destruct (parameters cov) as [ps|]; simpl; [|done].
  by apply params_loop_metadata.
Qed.

End Laziness.

(** ** Instances at concrete inputs *)

Lemma chunk_sizes_of_split_axis_witness :
  ∃ chunks : list Z,
    axis_tiles 10 (Some 3) = Ok chunks ∧
    chunks = replicate (Z.to_nat (10 `div` 3)) 3 ++
               (if decide (10 `mod` 3 > 0) then [10 `mod` 3] else []) ∧
    sum_list chunks = 10 ∧
    Forall (λ c, 0 < c ≤ 3) chunks ∧
    (∀ (i : nat) c, chunks !! i = Some c → (S i < length chunks)%nat → c = 3) ∧
    Z.of_nat (length chunks) = ceil_div 10 3.
Proof. apply (chunk_sizes_of_split_axis 10 3); lia. Defined.

Lemma result_key_of_split_axes_example :
  da_key "FOO" [None; Some 3; Some 3] ["t"; "y"; "x"] =
    spec_result_key "FOO" [None; Some 3; Some 3] ["t"; "y"; "x"] ∧
  da_key "FOO" [None; None] ["y"; "x"] = "FOO-untiled".
Proof.
  split.
  - apply (result_key_of_split_axes "FOO" [None; Some 3; Some 3]
             ["t"; "y"; "x"]).
    right. vm_compute. discriminate.
  - apply (result_key_of_split_axes "FOO" [None; None] ["y"; "x"]).
    repeat constructor.
Defined.

(** C3: a tileset that splits an axis whose name is the empty string
    has an integer tileShape entry, so its key should be "FOO-_tiling";
    the emptiness test on the concatenated names makes it
    "FOO-untiled". *)
Lemma result_key_of_empty_named_split_axis :
  ¬ Forall (λ t, t = None) [Some 3] ∧
  da_key "FOO" [Some 3] [""] = "FOO-untiled" ∧
  spec_result_key "FOO" [Some 3] [""] = "FOO-_tiling" ∧
  da_key "FOO" [Some 3] [""] ≠ spec_result_key "FOO" [Some 3] [""].
Proof.
  split; [by intros [[=] _]%Forall_cons|].
  split; [reflexivity|]. split; [reflexivity|]. vm_compute. discriminate.
Qed.

(** The end-to-end example: FOO over (y, x) of shape 10 x 11 in tiles of
    3 x 3 has chunk sizes 3,3,3,1 and 3,3,3,2, the key "FOO-yx_tiling"
    and 16 tasks. *)
Lemma foo_coverage_example :
  ∃ m arr,
    build_dask_arrays always_200 tile_2x2 numpy64 foo_coverage = Ok m ∧
    m !! "FOO-yx_tiling" = Some arr ∧ size m = 1%nat ∧
    name arr = "FOO" ∧
    chunks arr = [[3; 3; 3; 1]; [3; 3; 3; 2]] ∧
    size (dask arr) = 16%nat ∧
    dask arr !! ("FOO", [3; 2]) =
      Some (get_tile always_200 tile_2x2 numpy64, "http://h/{y}/{x}", ["y"; "x"],
            [3; 2]).
Proof.
  destruct (build_dask_arrays always_200 tile_2x2 numpy64 foo_coverage) as [m|e]
    eqn:Hb; [|by vm_compute in Hb].
  vm_compute in Hb. injection Hb as <-.
  eexists _, _. split; [reflexivity|]. split; [vm_compute; reflexivity|].
  repeat split; vm_compute; reflexivity.
Qed.

Lemma tile_url_by_placeholder_substitution_witness :
  substitute "http://h/tiles/{x}" (zip ["t"] [7]) = "http://h/tiles/{x}" ∧
  str_replace "http://h/{x}" ("{" +:+ "y" +:+ "}") (str 5) = "http://h/{x}".
Proof.
  destruct (tile_url_by_placeholder_substitution always_200 tile_2x2 numpy64
              "http://h/tiles/{x}" ["t"] [7]) as (_ & _ & Habsent & Hall & _).
  split.
  - apply Hall. repeat constructor.
  - apply Habsent. reflexivity.
Defined.

Lemma tile_reshaped_row_major_witness :
  get_tile always_200 tile_2x2 numpy64 "http://h/{x}/{y}" ["x"; "y"] [2; 5] =
    reshape numpy64 (np_array numpy64 [1; 2; 3; 4]) [2; 2] ∧
  reshape numpy64 (np_array numpy64 [1; 2; 3; 4]) [2; 2] =
    Ok (NdArray [2%nat; 2%nat] [1; 2; 3; 4]) ∧
  tolist (NdArray [2%nat; 2%nat] [1; 2; 3; 4]) =
    Some (Rows [Rows [Item 1; Item 2]; Rows [Item 3; Item 4]]) ∧
  reshape numpy64 (np_array numpy64 [1; 2; 3; 4]) [3; 2] = Err ValueError.
Proof.
  assert (Forall (λ d, 0 < d) [2; 2]) as H22 by (repeat constructor; lia).
  assert (Forall (λ d, 0 < d) [3; 2]) as H32 by (repeat constructor; lia).
  assert (0 < np_itemsize numpy64 (np_cast numpy64 [1; 2; 3; 4] <$> [1; 2; 3; 4])
            ≤ npy_max_intp numpy64) as Hitem by (by vm_compute).
  assert (np_itemsize numpy64 (np_cast numpy64 [1; 2; 3; 4] <$> [1; 2; 3; 4])
            * Z.of_nat (length [1; 2; 3; 4]) ≤ npy_max_intp numpy64) as Hfit
    by (by vm_compute).
  destruct (tile_reshaped_row_major always_200 tile_2x2 numpy64 [1; 2; 3; 4]
              [2; 2] H22 ltac:(simpl; lia) Hitem Hfit)
    as (Hget & _ & Hok & Hrows).
  destruct (tile_reshaped_row_major always_200 tile_2x2 numpy64 [1; 2; 3; 4]
              [3; 2] H32 ltac:(simpl; lia) Hitem Hfit) as (_ & Herr & _).
  split_and!.
  - by apply (Hget _ _ _ (Response 200 [])).
  - by apply Hok.
  - exact (Hrows 1 2 3 4).
  - apply Herr. vm_compute. discriminate.
Defined.

(** C5 as stated fails for a shape with a negative entry: the product
    of (-1, 2) is not 4, yet four values are reshaped to 2 x 2 without
    any error. *)
Lemma reshape_inferred_dimension_counterexample :
  prod_list [-1; 2] ≠ Z.of_nat (length [1; 2; 3; 4]) ∧
  reshape numpy64 (np_array numpy64 [1; 2; 3; 4]) [-1; 2] =
    Ok (NdArray [2%nat; 2%nat] [1; 2; 3; 4]) ∧
  get_tile always_200 tile_inferred_rows numpy64 "http://h/{x}" ["x"] [0] =
    Ok (NdArray [2%nat; 2%nat] [1; 2; 3; 4]).
Proof. split; [vm_compute; discriminate|]. split; reflexivity. Qed.

Lemma single_chunk_axis_witness :
  (axis_tiles 10 None = Ok [10] ∧ axis_coords [10] = [0]) ∧
  (axis_tiles 10 (Some 12) = Ok [10] ∧ axis_coords [10] = [0]).
Proof.
  split.
  - apply (single_chunk_axis 10 None); [lia|by left].
  - apply (single_chunk_axis 10 (Some 12)); [lia|].
    right. exists 12. split; [reflexivity|lia].
Defined.

(** C6 as stated fails for an extent of zero: an unsplit axis raises
    ZeroDivisionError, and a split one gets no chunk at all. *)
Lemma zero_extent_counterexample :
  axis_tiles 0 None = Err ZeroDivisionError ∧
  axis_tiles 0 None ≠ Ok [0] ∧
  0 ≤ 3 ∧ axis_tiles 0 (Some 3) = Ok [] ∧ axis_tiles 0 (Some 3) ≠ Ok [0].
Proof. repeat split; (done || lia). Qed.

Lemma foo_coverage_positive : positive_sizes foo_coverage.
Proof.
  apply map_Forall_singleton. split; repeat constructor; simpl; lia.
Qed.

Lemma short_shape_coverage_positive : positive_sizes short_shape_coverage.
Proof.
  apply map_Forall_singleton. split; repeat constructor; simpl; lia.
Qed.

Lemma foo_range_no_zero_divisor : ¬ has_zero_divisor foo_range.
Proof.
  unfold has_zero_divisor. simpl.
  intros [H|H]%Exists_cons; [|by apply Exists_nil in H].
  repeat (apply Exists_cons in H as [H|H];
          [unfold zero_divisor in H; simpl in H; lia|]).
  by apply Exists_nil in H.
Qed.

Lemma schema_errors_at_build_time_witness :
  build_dask_arrays always_200 tile_2x2 numpy64 (Coverage None None) =
    Err (KeyError "parameters") ∧
  build_dask_arrays always_200 tile_2x2 numpy64
    (Coverage (Some ["FOO"]) None) = Err (KeyError "ranges") ∧
  build_dask_arrays always_200 tile_2x2 numpy64
    (Coverage (Some ["FOO"; "BAR"]) (Some {[ "FOO" := foo_range ]}))
    = Err (KeyError "BAR") ∧
  (∃ e, build_dask_arrays always_200 tile_2x2 numpy64
          (Coverage (Some ["FOO"; "BAR"])
                    (Some {[ "FOO" := zero_tile_range ]})) = Err e ∧
        (e = ZeroDivisionError ∨
         ∃ q, q ∈ ["FOO"; "BAR"] ∧
              ({[ "FOO" := zero_tile_range ]} : gmap string range_descriptor)
                !! q = None ∧
              e = KeyError q)) ∧
  is_Ok (build_dask_arrays always_200 tile_2x2 numpy64 short_shape_coverage).
Proof.
  destruct (schema_errors_at_build_time always_200 tile_2x2 numpy64)
    as (Hparams & Hranges & Hrange & Hfirst & _ & _ & Hbuilt).
  split_and!.
  - by apply Hparams.
  - by apply (Hranges _ "FOO" []).
  - apply (Hfirst _ ["FOO"] "BAR" [] {[ "FOO" := foo_range ]});
      [reflexivity|reflexivity|reflexivity|].
    repeat constructor. exists foo_range. split; [reflexivity|].
    exact foo_range_no_zero_divisor.
  - apply (Hrange _ ["FOO"; "BAR"] {[ "FOO" := zero_tile_range ]} "BAR");
      [reflexivity|reflexivity| |reflexivity].
    apply elem_of_cons. right. apply elem_of_cons. by left.
  - apply (Hbuilt _ ["FOO"] {[ "FOO" := short_shape_range ]}).
    + split; [reflexivity|]. split; [reflexivity|].
      repeat constructor. by eexists.
    + exact short_shape_coverage_positive.
Defined.

(** C7 as stated fails where the lengths disagree: two axis names and
    two tile sizes against a shape of length one still give an array,
    over the one axis that could be paired; and without any parameter a
    missing "ranges" key goes unnoticed. *)
Lemma length_mismatch_counterexample :
  length (axisNames short_shape_range) ≠ length (shape short_shape_range) ∧
  (∃ m arr,
     build_dask_arrays always_200 tile_2x2 numpy64 short_shape_coverage = Ok m ∧
     m !! "FOO-yx_tiling" = Some arr ∧
     chunks arr = [[3; 3; 3; 1]] ∧ size (dask arr) = 4%nat) ∧
  ranges no_parameter_coverage = None ∧
  build_dask_arrays always_200 tile_2x2 numpy64 no_parameter_coverage = Ok ∅.
Proof.
  split; [simpl; lia|]. split; [|split; reflexivity].
  destruct (build_dask_arrays always_200 tile_2x2 numpy64 short_shape_coverage)
    as [m|e] eqn:Hb; [|by vm_compute in Hb].
  vm_compute in Hb. injection Hb as <-.
  eexists _, _. split; [reflexivity|]. split; [vm_compute; reflexivity|].
  split; vm_compute; reflexivity.
Qed.

Lemma get_data_passes_transport_outcome_witness :
  get_data connection_refused "http://h/1" =
    Err (RequestException "connection refused") ∧
  get_tile connection_refused tile_2x2 numpy64 "http://h/{x}" ["x"] [1] =
    Err (RequestException "connection refused").
Proof.
  destruct (get_data_passes_transport_outcome connection_refused tile_2x2 numpy64
              "http://h/1") as [Hdata Htile].
  split; [exact Hdata|]. by apply Htile.
Defined.

(** C8 as stated fails for a response with a status outside 200-299:
    get_data returns its body as bytes instead of raising. *)
Lemma non_success_status_counterexample :
  always_404 "http://h/missing" = Ok (Response 404 not_found_body) ∧
  ¬ (200 ≤ 404 < 300) ∧
  get_data always_404 "http://h/missing" = Ok not_found_body.
Proof. split; [reflexivity|]. split; [lia|reflexivity]. Qed.


(** C10 as stated fails where the zero is not paired with a shape entry
    (a shape of length one against the tile shape 3, 0: the array is
    built), and where a parameter without a range is listed before the
    one with the zero tile size (the error is its KeyError). *)
Lemma unpaired_zero_tile_counterexample :
  Some 0 ∈ tileShape (Tileset [Some 3; Some 0] "http://h/{y}/{x}") ∧
  (∃ m arr,
     build_dask_arrays always_200 tile_2x2 numpy64 unpaired_zero_coverage
       = Ok m ∧
     m !! "FOO-yx_tiling" = Some arr ∧ chunks arr = [[3; 3; 3; 1]]) ∧
  build_dask_arrays always_200 tile_2x2 numpy64
    (Coverage (Some ["BAR"; "FOO"]) (Some {[ "FOO" := zero_tile_range ]}))
    = Err (KeyError "BAR").
Proof.
  split; [simpl; apply elem_of_cons; right; apply elem_of_cons; by left|].
  split; [|reflexivity].
  destruct (build_dask_arrays always_200 tile_2x2 numpy64
              unpaired_zero_coverage) as [m|e] eqn:Hb; [|by vm_compute in Hb].
  vm_compute in Hb. injection Hb as <-.
  eexists _, _. split; [reflexivity|]. split; vm_compute; reflexivity.
Qed.

Lemma division_by_zero_exactly_at_zero_sizes_witness :
  is_Ok (axis_tiles 10 (Some 3)) ∧
  build_dask_arrays always_200 tile_2x2 numpy64 foo_coverage ≠ Err ZeroDivisionError ∧
  build_dask_arrays always_200 tile_2x2 numpy64 zero_tile_coverage =
    Err ZeroDivisionError.
Proof.
  destruct (division_by_zero_exactly_at_zero_sizes always_200 tile_2x2 numpy64)
    as (Haxis & Hpos & _ & _ & _ & _ & Hzero).
  split_and!.
  - apply Haxis; simpl; lia.
  - apply Hpos. exact foo_coverage_positive.
  - apply (Hzero _ ["FOO"] {[ "FOO" := zero_tile_range ]} "FOO"
             zero_tile_range).
    + split; [reflexivity|]. split; [reflexivity|].
      repeat constructor. by eexists.
    + apply elem_of_cons. by left.
    + reflexivity.
    + apply Exists_cons_hd. simpl.
      apply Exists_cons_tl, Exists_cons_hd. reflexivity.
Defined.

(** *** Instances of the further properties *)

Lemma chunks_cover_declared_shape_witness :
  ∃ arr,
    build_tileset always_200 tile_2x2 numpy64 "FOO" ["y"; "x"] [10; 11]
      (Tileset [Some 3; None] "http://h/{y}") =
      Ok (da_key "FOO" [Some 3; None] ["y"; "x"], arr) ∧
    sum_list <$> chunks arr = [10; 11].
Proof.
  destruct (chunks_cover_declared_shape always_200 tile_2x2 numpy64 "FOO" ["y"; "x"]
              [10; 11] (Tileset [Some 3; None] "http://h/{y}"))
    as (arr & Hb & _ & _ & _ & Hsum).
  { repeat constructor; simpl; lia. }
  exists arr. split; [exact Hb|]. by apply Hsum.
Defined.

Lemma task_count_of_tileset_witness :
  ∃ arr,
    build_tileset always_200 tile_2x2 numpy64 "FOO" ["y"; "x"] [10; 11]
      (Tileset [Some 3; None] "http://h/{y}") =
      Ok (da_key "FOO" [Some 3; None] ["y"; "x"], arr) ∧
    size (dask arr) = 4%nat.
Proof.
  destruct (task_count_of_tileset always_200 tile_2x2 numpy64 "FOO" ["y"; "x"]
              [10; 11] (Tileset [Some 3; None] "http://h/{y}"))
    as (arr & Hb & Hsize).
  { repeat constructor; simpl; lia. }
  exists arr. split; [exact Hb|]. rewrite Hsize. reflexivity.
Defined.

Lemma untiled_tileset_single_task_witness :
  build_tileset always_200 tile_2x2 numpy64 "FOO" ["y"; "x"] [10; 11]
    (Tileset [None; None] "http://h/all") =
  Ok ("FOO-untiled",
      Array {[ ("FOO", [0; 0]) :=
                 (get_tile always_200 tile_2x2 numpy64, "http://h/all", ["y"; "x"],
                  [0; 0]) ]}
            "FOO" [[10]; [11]]).
Proof.
  apply (untiled_tileset_single_task always_200 tile_2x2 numpy64 "FOO" ["y"; "x"]
           [10; 11] (Tileset [None; None] "http://h/all")).
  - repeat constructor.
  - repeat constructor; lia.
Defined.

Lemma chunkless_axis_empty_graph_witness :
  ∃ arr,
    build_tileset always_200 tile_2x2 numpy64 "FOO" ["x"] [10]
      (Tileset [Some (-3)] "http://h/{x}") =
      Ok (da_key "FOO" [Some (-3)] ["x"], arr) ∧
    [] ∈ chunks arr ∧ dask arr = ∅.
Proof.
  apply (chunkless_axis_empty_graph always_200 tile_2x2 numpy64 "FOO" ["x"] [10]
           (Tileset [Some (-3)] "http://h/{x}")).
  - intros [H|H]%Exists_cons; [|by apply Exists_nil in H].
    unfold zero_divisor in H. simpl in H. lia.
  - apply Exists_cons_hd. exists (-3). split; [reflexivity|].
    left. simpl. lia.
Defined.

Lemma returned_mapping_keys_witness :
  ∃ m,
    build_dask_arrays always_200 tile_2x2 numpy64 twice_untiled_coverage = Ok m ∧
    dom m = list_to_set (job_key <$> jobs twice_untiled_coverage) ∧
    (size m ≤ length (jobs twice_untiled_coverage))%nat.
Proof.
  destruct (build_dask_arrays always_200 tile_2x2 numpy64 twice_untiled_coverage)
    as [m|e] eqn:Hb; [|by vm_compute in Hb].
  exists m. split; [reflexivity|].
  destruct (returned_mapping_keys always_200 tile_2x2 numpy64 twice_untiled_coverage
              m Hb) as (Hdom & Hsize & _).
  by split.
Defined.

Lemma grid_coverage_keys_distinct : NoDup (job_key <$> jobs grid_coverage).
Proof.
  change (NoDup ["FOO-yx_tiling"; "FOO-t_tiling"; "FOO-untiled"]).
  repeat (apply NoDup_cons; split;
          [rewrite ?elem_of_cons, elem_of_nil; intros H;
           repeat destruct H as [H|H]; done|]).
  apply NoDup_nil_2.
Qed.

Lemma one_array_per_pair_witness :
  ∃ m,
    build_dask_arrays always_200 tile_2x2 numpy64 grid_coverage = Ok m ∧
    size m = 3%nat.
Proof.
  destruct (build_dask_arrays always_200 tile_2x2 numpy64 grid_coverage)
    as [m|e] eqn:Hb; [|by vm_compute in Hb].
  exists m. split; [reflexivity|].
  destruct (one_array_per_pair always_200 tile_2x2 numpy64 grid_coverage m Hb
              grid_coverage_keys_distinct) as [Hsize _].
  exact Hsize.
Defined.

Lemma returned_arrays_well_formed_witness :
  ∃ m arr,
    build_dask_arrays always_200 tile_2x2 numpy64 foo_coverage = Ok m ∧
    m !! "FOO-yx_tiling" = Some arr ∧
    name arr = "FOO" ∧
    ∀ key t, dask arr !! key = Some t → key.1 = name arr.
Proof.
  destruct foo_coverage_example as (m & arr & Hb & Hk & _).
  exists m, arr. split; [exact Hb|]. split; [exact Hk|].
  destruct (returned_arrays_well_formed always_200 tile_2x2 numpy64 foo_coverage m
              "FOO-yx_tiling" arr Hb Hk)
    as (ps & rs & p & r & ts & Hps & _ & Hp & _ & _ & _ & Hname & _ & Hkeys).
  injection Hps as <-. apply list_elem_of_singleton in Hp as ->.
  split; [exact Hname|]. intros key t Ht. by apply (Hkeys key t).
Defined.

Lemma build_fetches_only_the_document_witness :
  mapping_metadata <$>
    get_dask_arrays always_200 decode_foo_coverage tile_2x2 numpy64
      "http://h/coverage" =
  mapping_metadata <$>
    get_dask_arrays serve_only_coverage decode_foo_coverage tile_3x2 numpy64
      "http://h/coverage".
Proof.
  apply (build_fetches_only_the_document always_200 serve_only_coverage
           decode_foo_coverage tile_2x2 tile_3x2 numpy64 numpy64
           "http://h/coverage").
  reflexivity.
Defined.

Lemma only_listed_parameters_read_witness :
  build_dask_arrays always_200 tile_2x2 numpy64
    (Coverage (Some ["FOO"]) (Some {[ "FOO" := foo_range ]})) =
  build_dask_arrays always_200 tile_2x2 numpy64
    (Coverage (Some ["FOO"])
       (Some (<[ "BAR" := zero_tile_range ]> {[ "FOO" := foo_range ]}))).
Proof.
  apply (only_listed_parameters_read always_200 tile_2x2 numpy64 ["FOO"]).
  intros p ->%list_elem_of_singleton. reflexivity.
Defined.

Lemma single_placeholder_url_injective_witness :
  substitute "http://h/{x}/tile" (zip ["x"] [3]) ≠
  substitute "http://h/{x}/tile" (zip ["x"] [4]).
Proof.
  destruct (single_placeholder_url_injective "http://h/{x}/tile" "x")
    as (pre & post & _ & _ & Hinj); [reflexivity|].
  intros Heq. apply Hinj in Heq. discriminate.
Defined.

Lemma returned_tile_well_formed_witness :
  ∃ resp tile_data,
    always_200 (substitute "http://h/{x}" (zip ["x"] [0])) = Ok resp ∧
    tile_inferred_rows (content resp) = Ok tile_data ∧
    prod_nat [2; 2]%nat = length (values tile_data) ∧
    ∃ t, tolist (NdArray [2; 2]%nat [1; 2; 3; 4]) = Some t.
Proof.
  destruct (returned_tile_well_formed always_200 tile_inferred_rows numpy64
              "http://h/{x}" ["x"] [0] (NdArray [2; 2]%nat [1; 2; 3; 4]))
    as (resp & tile_data & Hget & Hjson & _ & _ & Hprod & t & Ht & _);
    [reflexivity|].
  exists resp, tile_data. split; [exact Hget|]. split; [exact Hjson|].
  split; [exact Hprod|]. by exists t.
Defined.
